(** * AstroPi2022 (team Twin Stars): the acquisition loop of [main.py]

    A shallow embedding of [src/main.py]: the EXIF angle encoder [convert],
    the photo step [capture], and the sampling loop with its storage
    ceiling, its time ceiling and its [try]/[except] around every cycle.

    Conventions of the embedding.
    - A Python [float] is the rational number it stands for ([Q]); an
      arithmetic operation of the program on floats is the exact
      operation followed by rounding to binary64 ([PyNum.fl]).
      Infinities and NaN are left out: no value of the program comes
      near the overflow threshold.
    - Python [int]s are unbounded, hence [Z].
    - [datetime] values are instants in microseconds ([Z]); a
      [timedelta] is a number of microseconds.
    - A [dict] is a [gmap] with [string] keys.
    - The collaborators (Sense HAT, camera, orbit library, file system,
      clock) are an explicit script of outcomes, one record per pass
      through the loop body: a call either returns a value or raises a
      Python [Exception].
    - Exceptions outside the class [Exception] ([KeyboardInterrupt],
      [SystemExit]), which the handler of the loop does not match, are
      added to that script by [Pass]; [while_loop] is the loop over such
      passes, and [main_loop] is the loop over the passes without
      them. *)

From Stdlib Require Import ZArith QArith Qround Qabs Qpower Lia Lqa.
From Stdlib Require Import Ascii String Decimal DecimalString DecimalN.
From stdpp Require Import base gmap strings list sorting.

Open Scope Z_scope.

(** ** Python numbers and their formatting *)

Module PyNum.

(** Nearest integer, a tie going to the even neighbour: the rounding of
    Python's [round] and of its [f] format. *)
Definition round_half_even (x : Q) : Z :=
  let f := Qfloor x in
  match Qcompare (x - inject_Z f)%Q (1 # 2)%Q with
  | Lt => f
  | Gt => f + 1
  | Eq => if Z.even f then f else f + 1
  end.

(** Nearest integer, a tie going away from zero (the rounding the
    specification names; the program never calls it). *)
Definition round_half_away (x : Q) : Z :=
  match Qcompare x 0%Q with
  | Lt => - Qfloor (- x + (1 # 2))%Q
  | _ => Qfloor (x + (1 # 2))%Q
  end.

(** [floor(log2 |x|)], for [x] other than zero. *)
Definition ilog2 (x : Q) : Z :=
  let a := Z.abs (Qnum x) in
  let b := Z.pos (Qden x) in
  let l := Z.log2 a - Z.log2 b in
  if Qle_bool (2 ^ l)%Q (Qabs x) then l else l - 1.

(** The exponent of the last place of a binary64 number near [x]:
    53 significant bits, subnormal below [2^-1022]. *)
Definition ulp_exponent (x : Q) : Z := Z.max (ilog2 x - 52) (-1074).

(** Rounding to the nearest binary64 number, ties to even. *)
Definition fl (x : Q) : Q :=
  if Qeq_bool x 0 then 0%Q
  else
    let e := ulp_exponent x in
    (inject_Z (round_half_even (x / 2 ^ e)) * 2 ^ e)%Q.

(** [x * y] on floats. *)
Definition fmul (x y : Q) : Q := fl (x * y).

(** [round(x, ndigits)] for [ndigits >= 0]: the float nearest to the
    decimal that is nearest to [x]. *)
Definition py_round (x : Q) (ndigits : nat) : Q :=
  let scale := inject_Z (10 ^ Z.of_nat ndigits) in
  fl (inject_Z (round_half_even (x * scale)) / scale).

(** Quotient and remainder of [x] by [y > 0], without rounding. *)
Definition exact_divmod (x y : Q) : Q * Q :=
  let q := inject_Z (Qfloor (x / y)) in
  (q, x - q * y)%Q.

(** [np.sign]. *)
Definition np_sign (x : Q) : Q :=
  match Qcompare x 0%Q with
  | Lt => (- (1))%Q
  | Eq => 0%Q
  | Gt => 1%Q
  end.

Definition Qltb (x y : Q) : bool :=
  match Qcompare x y with Lt => true | _ => false end.

(** The decimal digits of a natural number, without sign or padding. *)
Definition digits (n : N) : string :=
  NilEmpty.string_of_uint (N.to_uint n).

(** [f'{n}'] for an [int]. *)
Definition fmt_d (n : Z) : string :=
  ((if n <? 0 then "-" else "") +:+ digits (Z.abs_N n))%Z.

(** [f'{n:04d}']: at least four characters, zero padded after the sign. *)
Definition fmt_04d (n : Z) : string :=
  let body := digits (Z.abs_N n) in
  let sign := if n <? 0 then "-" else "" in
  let width := (4 - String.length sign)%nat in
  sign +:+ string_of_list_ascii
             (repeat "0"%char (width - String.length body)) +:+ body.

(** [f'{x:.0f}']: the sign is the sign of [x] itself, so a negative
    value that rounds to zero prints as [-0]. *)
Definition fmt0f (x : Q) : string :=
  (if Qltb x 0%Q then "-" else "") +:+ digits (Z.abs_N (round_half_even x)).

End PyNum.

Import PyNum.

(** ** The angle encoder *)

(** A [skyfield] angle, as far as the program looks at it: its decimal
    degrees ([angle.degrees]). *)
Record Angle := mkAngle { degrees : Q }.

(** Modelled from the spec: [Angle.signed_dms] belongs to the [skyfield]
    library and is not part of the repository.  It splits the angle into
    a sign and the unsigned degrees, minutes and seconds of its
    magnitude, minutes in [0,59] and seconds in [0,60); the specification
    asks for a decomposition that is exact, with no rounding before the
    formatting. *)
Definition signed_dms (angle : Angle) : Q * Q * Q * Q :=
  let value := degrees angle in
  let sign := np_sign value in
  let n := Qabs value in
  let '(minutes, seconds) := exact_divmod (n * 3600)%Q 60%Q in
  let '(units, minutes) := exact_divmod minutes 60%Q in
  (sign, units, minutes, seconds).

(** The components of [signed_dms]. *)
Definition dms_sign (a : Angle) : Q := (signed_dms a).1.1.1.
Definition dms_degrees (a : Angle) : Q := (signed_dms a).1.1.2.
Definition dms_minutes (a : Angle) : Q := (signed_dms a).1.2.
Definition dms_seconds (a : Angle) : Q := (signed_dms a).2.

(** [convert(angle)], lines 29-40: the EXIF rationals, and whether the
    angle is negative. *)
Definition convert (angle : Angle) : bool * string :=
  let '(sign, deg, minutes, seconds) := signed_dms angle in
  let exif_angle :=
    fmt0f deg +:+ "/1," +:+ fmt0f minutes +:+ "/1," +:+
    fmt0f (fmul seconds 10) +:+ "/10" in
  (Qltb sign 0%Q, exif_angle).

(** The formatting the specification describes for degrees and minutes:
    nearest integer, a tie going away from zero. *)
Definition fmt0f_away (x : Q) : string :=
  (if Qltb x 0%Q then "-" else "") +:+ digits (Z.abs_N (round_half_away x)).

(** The encoded string of three naturals: degrees and minutes over 1,
    tenths of seconds over 10. *)
Definition render (d m s : N) : string :=
  digits d +:+ "/1," +:+ digits m +:+ "/1," +:+ digits s +:+ "/10".

(** ** Reading a geotag back

    The program only writes geotags.  The decoder below follows the
    specification's words for an encoded angle: three rationals [n/d]
    separated by commas, standing for degrees, minutes and seconds,
    negated when the hemisphere flag is set. *)

Module Decoder.

Fixpoint split_on (sep : ascii) (s : string) : list string :=
  match s with
  | EmptyString => [EmptyString]
  | String c s' =>
      if Ascii.eqb c sep then EmptyString :: split_on sep s'
      else match split_on sep s' with
           | [] => [String c EmptyString]
           | w :: ws => String c w :: ws
           end
  end.

Definition parse_nat (s : string) : option N :=
  N.of_uint <$> NilEmpty.uint_of_string s.

Definition parse_rational (s : string) : option Q :=
  match split_on "/" s with
  | [n; d] =>
      match parse_nat n, parse_nat d with
      | Some n, Some (Npos d) => Some (Z.of_N n # d)%Q
      | _, _ => None
      end
  | _ => None
  end.

Definition decode_exif (exif_angle : string) : option Q :=
  match split_on "," exif_angle with
  | [d; m; s] =>
      d ← parse_rational d;
      m ← parse_rational m;
      s ← parse_rational s;
      Some (d + m / 60 + s / 3600)%Q
  | _ => None
  end.

(** Decimal degrees of an encoder result [(negative, exif_angle)]. *)
Definition decode (encoded : bool * string) : option Q :=
  v ← decode_exif encoded.2;
  Some (if encoded.1 then (- v)%Q else v).

End Decoder.

(** ** Exceptions and the two monads of the loop body *)

(** A Python [Exception] instance, as the handler prints it:
    [e.__class__.__name__] and [str(e)]. *)
Record Exception := mkException { exn_class : string; exn_str : string }.

Inductive result (A : Type) : Type :=
| Ok (a : A)
| Raise (e : Exception).
Arguments Ok {A} a.
Arguments Raise {A} e.

#[global] Instance result_ret : MRet result := fun A a => Ok a.
#[global] Instance result_bind : MBind result := fun A B f m =>
  match m with
  | Ok a => f a
  | Raise e => Raise e
  end.

(** [d[key]] on a [dict]: a missing key raises [KeyError(key)]. *)
Definition getitem {V} (d : gmap string V) (key : string) : result V :=
  match d !! key with
  | Some v => Ok v
  | None => Raise (mkException "KeyError" ("'" +:+ key +:+ "'"))
  end.

(** ** The data of the program *)

(** A position as [ISS.coordinates()] returns it. *)
Record Position := mkPosition { latitude : Angle; longitude : Angle }.

(** The tuple [data] of one sample, in the column order of the header. *)
Record Row := mkRow {
  row_counter : Z;
  row_datetime : Z;
  row_latitude : Q;
  row_longitude : Q;
  row_temperature : Q;
  row_humidity : Q;
  row_mag_x : Q;
  row_mag_y : Q;
  row_mag_z : Q;
  row_pitch : Q;
  row_roll : Q;
  row_yaw : Q;
  row_x_acc : Q;
  row_y_acc : Q;
  row_z_acc : Q
}.

(** A line of [data.csv]. *)
Inductive Line : Type :=
| Header (columns : list string)
| Data (row : Row).

Inductive Level : Type := INFO | ERROR.

(** The module-level constants of [main.py]; the values of the source are
    [source_settings]. *)
Record Settings := mkSettings {
  base_folder : string;
  minutes_to_run : Z;
  sampling_delta_secs : Z;
  max_photos_size : Z
}.

Definition source_settings (folder : string) : Settings :=
  {| base_folder := folder;
     minutes_to_run := 175;
     sampling_delta_secs := 10;
     max_photos_size := 2684354560 |}.

(** [timedelta(minutes=m)], in microseconds. *)
Definition timedelta_minutes (m : Z) : Z := m * 60 * 1000000.

(** The module globals the loop updates, with the stores of the
    collaborators it writes to. *)
Record State := mkState {
  photos_size : Z;
  counter : Z;
  start_time : Z;
  now_time : Z;
  data_file : list Line;                     (* the lines of data.csv *)
  exif_tags : gmap string string;            (* cam.exif_tags *)
  photos : gmap string (gmap string string); (* image path to embedded tags *)
  events_log : list (Level * string);        (* events.log *)
  slept : Z                                  (* seconds spent in sleep() *)
}.

(** What the collaborators answer during one pass through the loop body.
    A call that is never reached leaves its entry unread. *)
Record Cycle := mkCycle {
  get_compass_raw : result (gmap string Q);
  get_orientation : result (gmap string Q);
  get_accelerometer_raw : result (gmap string Q);
  sense_humidity : result Q;
  sense_temperature : result Q;
  loop_coordinates : result Position;     (* ISS.coordinates(), line 123 *)
  row_now : Z;                            (* datetime.now(), line 127 *)
  csv_append : result unit;               (* open(...,'a') and writerow *)
  capture_coordinates : result Position;  (* ISS.coordinates(), line 44 *)
  camera_capture : result unit;           (* camera.capture(image) *)
  st_size : result N;                     (* Path(image_file).stat().st_size *)
  loop_now : Z                            (* datetime.now(), line 159 *)
}.

(** State and exceptions: a raise keeps the state reached so far. *)
Definition M (A : Type) : Type := State -> result A * State.

#[global] Instance M_ret : MRet M := fun A a st => (Ok a, st).
#[global] Instance M_bind : MBind M := fun A B f m st =>
  match m st with
  | (Ok a, st') => f a st'
  | (Raise e, st') => (Raise e, st')
  end.

Definition call {A} (r : result A) : M A := fun st => (r, st).
Definition gets {A} (f : State -> A) : M A := fun st => (Ok (f st), st).
Definition modify (f : State -> State) : M unit := fun st => (Ok tt, f st).

Definition set_photos_size (v : Z) (st : State) : State :=
  mkState v (counter st) (start_time st) (now_time st) (data_file st)
          (exif_tags st) (photos st) (events_log st) (slept st).
Definition set_counter (v : Z) (st : State) : State :=
  mkState (photos_size st) v (start_time st) (now_time st) (data_file st)
          (exif_tags st) (photos st) (events_log st) (slept st).
Definition set_now_time (v : Z) (st : State) : State :=
  mkState (photos_size st) (counter st) (start_time st) v (data_file st)
          (exif_tags st) (photos st) (events_log st) (slept st).
Definition set_data_file (v : list Line) (st : State) : State :=
  mkState (photos_size st) (counter st) (start_time st) (now_time st) v
          (exif_tags st) (photos st) (events_log st) (slept st).
Definition set_exif_tags (v : gmap string string) (st : State) : State :=
  mkState (photos_size st) (counter st) (start_time st) (now_time st)
          (data_file st) v (photos st) (events_log st) (slept st).
Definition set_photos (v : gmap string (gmap string string)) (st : State) : State :=
  mkState (photos_size st) (counter st) (start_time st) (now_time st)
          (data_file st) (exif_tags st) v (events_log st) (slept st).
Definition set_events_log (v : list (Level * string)) (st : State) : State :=
  mkState (photos_size st) (counter st) (start_time st) (now_time st)
          (data_file st) (exif_tags st) (photos st) v (slept st).
Definition set_slept (v : Z) (st : State) : State :=
  mkState (photos_size st) (counter st) (start_time st) (now_time st)
          (data_file st) (exif_tags st) (photos st) (events_log st) v.

(** ** The functions of [main.py] *)

Definition header : list string :=
  ["Counter"; "Date/time"; "Latitude"; "Longitude"; "Temperature";
   "Humidity"; "MagX"; "MagY"; "MagZ"; "Pitch"; "Roll"; "Yaw";
   "X_Acc"; "Y_Acc"; "Z_Acc"].

(** [create_csv_file(data_file)]: mode ['w'] truncates, then the header. *)
Definition create_csv_file : M unit :=
  modify (set_data_file [Header header]).

(** [add_csv_data(data_file, data)]: mode ['a'], one more line. *)
Definition add_csv_data (c : Cycle) (data : Row) : M unit :=
  call (csv_append c);;
  modify (fun st => set_data_file (data_file st ++ [Data data]) st).

Definition logger_info (msg : string) : M unit :=
  modify (fun st => set_events_log (events_log st ++ [(INFO, msg)]) st).

Definition logger_error (msg : string) : M unit :=
  modify (fun st => set_events_log (events_log st ++ [(ERROR, msg)]) st).

Definition sleep (secs : Z) : M unit :=
  modify (fun st => set_slept (slept st + secs) st).

Definition set_tag (key value : string) : M unit :=
  modify (fun st => set_exif_tags (<[key := value]> (exif_tags st)) st).

(** [capture(camera, image)], lines 42-57: its own position read, the
    four GPS tags, then the camera writes the image with the tags set. *)
Definition capture (c : Cycle) (image : string) : M unit :=
  location ← call (capture_coordinates c);
  let '(south, exif_latitude) := convert (latitude location) in
  let '(west, exif_longitude) := convert (longitude location) in
  set_tag "GPS.GPSLatitude" exif_latitude;;
  set_tag "GPS.GPSLatitudeRef" (if south then "S" else "N");;
  set_tag "GPS.GPSLongitude" exif_longitude;;
  set_tag "GPS.GPSLongitudeRef" (if west then "W" else "E");;
  call (camera_capture c);;
  modify (fun st => set_photos (<[image := exif_tags st]> (photos st)) st).

(** [round(d[key], ndigits)]. *)
Definition round_item (d : gmap string Q) (key : string) (ndigits : nat)
  : result Q :=
  v ← getitem d key;
  mret (py_round v ndigits).

(** Lines 99-141: the sensor and position reads and the tuple [data].
    Nothing of the program state changes here; [n] is [counter]. *)
Definition sample (c : Cycle) (n : Z) : result Row :=
  mag ← get_compass_raw c;
  mag_x ← round_item mag "x" 2;
  mag_y ← round_item mag "y" 2;
  mag_z ← round_item mag "z" 2;
  o ← get_orientation c;
  pitch ← round_item o "pitch" 3;
  roll ← round_item o "roll" 3;
  yaw ← round_item o "yaw" 3;
  acceleration ← get_accelerometer_raw c;
  x_acc ← round_item acceleration "x" 3;
  y_acc ← round_item acceleration "y" 3;
  z_acc ← round_item acceleration "z" 3;
  humidity ← (h ← sense_humidity c; mret (py_round h 2));
  temperature ← (t ← sense_temperature c; mret (py_round t 2));
  location ← loop_coordinates c;
  mret (mkRow n (row_now c)
              (degrees (latitude location)) (degrees (longitude location))
              temperature humidity mag_x mag_y mag_z
              pitch roll yaw x_acc y_acc z_acc).

(** [photos_size < max_photos_size], line 145. *)
Definition remaining (cfg : Settings) (st : State) : bool :=
  photos_size st <? max_photos_size cfg.

(** [photos_size += ...], line 149. *)
Definition consume (bytes : N) : M unit :=
  modify (fun st => set_photos_size (photos_size st + Z.of_N bytes) st).

Definition image_path (cfg : Settings) (n : Z) : string :=
  base_folder cfg +:+ "/photo_" +:+ fmt_04d n +:+ ".jpg".

(** Lines 144-153: the photo, when the storage ceiling allows one. *)
Definition photo_step (cfg : Settings) (c : Cycle) (n : Z) : M unit :=
  allowed ← gets (remaining cfg);
  if (allowed : bool) then
    let image_file := image_path cfg n in
    capture c image_file;;
    bytes ← call (st_size c);
    consume bytes;;
    total ← gets photos_size;
    logger_info ("iteration " +:+ fmt_d n +:+ " photo size " +:+ fmt_d total)
  else
    logger_info ("iteration " +:+ fmt_d n +:+ " Max photos size reached.").

(** The body of the [try], lines 99-159. *)
Definition body (cfg : Settings) (c : Cycle) : M unit :=
  n ← gets counter;
  data ← call (sample c n);
  add_csv_data c data;;
  photo_step cfg c n;;
  modify (fun st => set_counter (counter st + 1) st);;
  sleep (sampling_delta_secs cfg);;
  modify (set_now_time (loop_now c)).

Definition try_except {A} (m : M A) (handler : Exception -> M A) : M A :=
  fun st =>
    match m st with
    | (Ok a, st') => (Ok a, st')
    | (Raise e, st') => handler e st'
    end.

(** One pass through the [while] body, lines 97-161. *)
Definition iteration (cfg : Settings) (c : Cycle) : M unit :=
  try_except (body cfg c)
             (fun e => logger_error (exn_class e +:+ ": " +:+ exn_str e)).

(** The [while] test, line 96. *)
Definition loop_condition (cfg : Settings) (st : State) : bool :=
  now_time st <? start_time st + timedelta_minutes (minutes_to_run cfg).

(** How a run stands after a bounded number of passes. *)
Inductive Outcome : Type :=
| Ended (st : State)                      (* the loop left, last line logged *)
| Crashed (e : Exception) (st : State)    (* an exception left the loop *)
| Running (st : State).                   (* the bound is used up *)

(** The [while] loop and line 163.  [world i] is what the collaborators
    answer during pass [i]; [fuel] bounds the number of passes. *)
Fixpoint main_loop (cfg : Settings) (world : nat -> Cycle)
         (fuel : nat) (i : nat) (st : State) : Outcome :=
  if loop_condition cfg st then
    match fuel with
    | O => Running st
    | S fuel' =>
        match iteration cfg (world i) st with
        | (Ok _, st') => main_loop cfg world fuel' (S i) st'
        | (Raise e, st') => Crashed e st'
        end
    end
  else
    Ended (logger_info ("Ended on iteration " +:+ fmt_d (counter st) +:+ ".")
                       st).2.

(** The state when the loop is entered, lines 59-93: [start] and [now]
    are the two clock reads. *)
Definition initial_state (start now : Z) : State :=
  (create_csv_file (mkState 0 1 start now [] ∅ ∅ [] 0)).2.

Definition main (cfg : Settings) (world : nat -> Cycle) (fuel : nat)
           (start now : Z) : Outcome :=
  main_loop cfg world fuel 0 (initial_state start now).

(** The state after the first [n] passes, the loop test left aside. *)
Fixpoint passes (cfg : Settings) (world : nat -> Cycle) (n : nat) (i : nat)
         (st : State) : State :=
  match n with
  | O => st
  | S n' => passes cfg world n' (S i) (iteration cfg (world i) st).2
  end.

(** ** The state after each step of the body

    Names for the states the body goes through; the run equations of the
    next part are stated with them. *)

Definition append_row (data : Row) (st : State) : State :=
  set_data_file (data_file st ++ [Data data]) st.

(** The four tags [capture] sets, in its order (lines 51-54). *)
Definition geotags (location : Position) (tags : gmap string string)
  : gmap string string :=
  <["GPS.GPSLongitudeRef" :=
      if (convert (longitude location)).1 then "W" else "E"]>
    (<["GPS.GPSLongitude" := (convert (longitude location)).2]>
       (<["GPS.GPSLatitudeRef" :=
            if (convert (latitude location)).1 then "S" else "N"]>
          (<["GPS.GPSLatitude" := (convert (latitude location)).2]> tags))).

Definition tagged (location : Position) (st : State) : State :=
  set_exif_tags (geotags location (exif_tags st)) st.

Definition stored (image : string) (st : State) : State :=
  set_photos (<[image := exif_tags st]> (photos st)) st.

Definition logged (lvl : Level) (msg : string) (st : State) : State :=
  set_events_log (events_log st ++ [(lvl, msg)]) st.

Definition photo_logged (n : Z) (st : State) : State :=
  logged INFO
    ("iteration " +:+ fmt_d n +:+ " photo size " +:+ fmt_d (photos_size st))
    st.

(** Lines 155-159: counter, sleep, clock. *)
Definition finished (cfg : Settings) (c : Cycle) (st : State) : State :=
  set_now_time (loop_now c)
    (set_slept (slept st + sampling_delta_secs cfg)
       (set_counter (counter st + 1) st)).

(** The data rows of [data.csv], in file order. *)
Definition rows (st : State) : list Row :=
  omap (fun l => match l with Data r => Some r | Header _ => None end)
       (data_file st).

(** ** Strings without a given character *)

Fixpoint no_char (sep : ascii) (s : string) : Prop :=
  match s with
  | EmptyString => True
  | String c s' => Ascii.eqb c sep = false /\ no_char sep s'
  end.

Definition is_digit (c : ascii) : bool :=
  match c with
  | "0" | "1" | "2" | "3" | "4" | "5" | "6" | "7" | "8" | "9" => true
  | _ => false
  end%char.

(** ** Sample answers of the collaborators *)

Definition xyz (x y z : Q) : gmap string Q :=
  <["x" := x]> (<["y" := y]> (<["z" := z]> ∅)).

Definition pry (p r y : Q) : gmap string Q :=
  <["pitch" := p]> (<["roll" := r]> (<["yaw" := y]> ∅)).

Definition london : Position :=
  mkPosition (mkAngle (fl (515074 # 10000))) (mkAngle (fl (-1278 # 10000))).

Definition quito : Position :=
  mkPosition (mkAngle (fl (-1807 # 10000))) (mkAngle (fl (-784678 # 10000))).

(** A pass in which every call succeeds: the loop reads position [p1],
    [capture] reads [p2], the image takes [bytes] bytes, the clock shows
    [t_row] when the row is built and [t_now] after the sleep. *)
Definition nominal (p1 p2 : Position) (bytes : N) (t_row t_now : Z) : Cycle :=
  {| get_compass_raw := Ok (xyz (fl (1 # 3)) (fl (2 # 3)) (fl (-5 # 7)));
     get_orientation := Ok (pry 1 2 3);
     get_accelerometer_raw := Ok (xyz 0 0 1);
     sense_humidity := Ok 45%Q;
     sense_temperature := Ok (fl (251 # 10));
     loop_coordinates := Ok p1;
     row_now := t_row;
     csv_append := Ok tt;
     capture_coordinates := Ok p2;
     camera_capture := Ok tt;
     st_size := Ok bytes;
     loop_now := t_now |}.

(** The first pass of a run over London, with an image of 600 bytes. *)
Definition first_pass : Cycle := nominal london london 600 5 10000000.

(** The same pass with [camera.capture] raising. *)
Definition camera_down (c : Cycle) : Cycle :=
  mkCycle (get_compass_raw c) (get_orientation c) (get_accelerometer_raw c)
          (sense_humidity c) (sense_temperature c) (loop_coordinates c)
          (row_now c) (csv_append c) (capture_coordinates c)
          (Raise (mkException "PiCameraRuntimeError" "No data received"))
          (st_size c) (loop_now c).

(** The same pass with the first sensor read raising. *)
Definition sensor_down (c : Cycle) : Cycle :=
  mkCycle (Raise (mkException "OSError" "Magnetometer Init Failed"))
          (get_orientation c) (get_accelerometer_raw c)
          (sense_humidity c) (sense_temperature c) (loop_coordinates c)
          (row_now c) (csv_append c) (capture_coordinates c)
          (camera_capture c) (st_size c) (loop_now c).

Definition pi_settings : Settings := source_settings "/home/pi".

(** A storage ceiling of 1000 bytes, and images of 600 then 500 bytes. *)
Definition budget_1000 : Settings := mkSettings "/home/pi" 175 10 1000.

Definition two_captures (i : nat) : Cycle :=
  match i with
  | O => first_pass
  | _ => nominal london london 500 15 20000000
  end.

(** A pass that fails in the camera, then passes that succeed. *)
Definition camera_down_once (i : nat) : Cycle :=
  match i with
  | O => camera_down first_pass
  | _ => nominal london london 600 15 20000000
  end.

(** Every pass fails in the first sensor read. *)
Definition sensor_always_down (i : nat) : Cycle := sensor_down first_pass.

(** Every pass succeeds; the clock after the sleep of pass [i] shows
    [(i + 1)] hours. *)
Definition hourly (i : nat) : Cycle :=
  nominal london london 600 5 (Z.of_nat (S i) * 3600000000).

(** ** Four sentences of the specification, read on one pass

    Each is the specification's wording for one pass [c] from state [st];
    the program does not satisfy them as they stand. *)

(** When storage remains and the capture attempt fails, the row of the
    pass is not in the file. *)
Definition spec_capture_failure_drops_row
  (cfg : Settings) (c : Cycle) (st : State) : Prop :=
  remaining cfg st = true ->
  (exists data e,
      sample c (counter st) = Ok data /\ csv_append c = Ok tt /\
      (photo_step cfg c (counter st) (append_row data st)).1 = Raise e) ->
  data_file (iteration cfg c st).2 = data_file st.

(** The counter goes up by one in every pass. *)
Definition spec_counter_always_advances
  (cfg : Settings) (c : Cycle) (st : State) : Prop :=
  counter (iteration cfg c st).2 = counter st + 1.

(** A pass that fails still sleeps the interval and refreshes the time. *)
Definition spec_failed_iteration_sleeps
  (cfg : Settings) (c : Cycle) (st : State) : Prop :=
  (exists e, (body cfg c st).1 = Raise e) ->
  slept (iteration cfg c st).2 = slept st + sampling_delta_secs cfg /\
  now_time (iteration cfg c st).2 = loop_now c.

(** The geotag of the photo encodes the position written in the row. *)
Definition spec_geotag_is_row_position
  (cfg : Settings) (c : Cycle) (st : State) : Prop :=
  forall data tags,
    last (rows (iteration cfg c st).2) = Some data ->
    photos (iteration cfg c st).2 !! image_path cfg (counter st) = Some tags ->
    tags !! "GPS.GPSLatitude" =
      Some (convert (mkAngle (row_latitude data))).2 /\
    tags !! "GPS.GPSLongitude" =
      Some (convert (mkAngle (row_longitude data))).2.

(** ** The outcomes of one pass

    The seven ways through lines 97-161, each with the state it leaves:
    five places where the body can raise, and the two branches of the
    storage test when it completes. *)

Definition error_text (e : Exception) : string :=
  exn_class e +:+ ": " +:+ exn_str e.

Definition exhausted_text (n : Z) : string :=
  "iteration " +:+ fmt_d n +:+ " Max photos size reached.".

Inductive pass_outcome (cfg : Settings) (c : Cycle) (st : State)
  : State -> Prop :=
| sampling_failed e :
    sample c (counter st) = Raise e ->
    pass_outcome cfg c st (logged ERROR (error_text e) st)
| append_failed data e :
    sample c (counter st) = Ok data ->
    csv_append c = Raise e ->
    pass_outcome cfg c st (logged ERROR (error_text e) st)
| position_failed data e :
    sample c (counter st) = Ok data ->
    csv_append c = Ok tt ->
    remaining cfg st = true ->
    capture_coordinates c = Raise e ->
    pass_outcome cfg c st
      (logged ERROR (error_text e) (append_row data st))
| camera_failed data location e :
    sample c (counter st) = Ok data ->
    csv_append c = Ok tt ->
    remaining cfg st = true ->
    capture_coordinates c = Ok location ->
    camera_capture c = Raise e ->
    pass_outcome cfg c st
      (logged ERROR (error_text e) (tagged location (append_row data st)))
| size_failed data location e :
    sample c (counter st) = Ok data ->
    csv_append c = Ok tt ->
    remaining cfg st = true ->
    capture_coordinates c = Ok location ->
    camera_capture c = Ok tt ->
    st_size c = Raise e ->
    pass_outcome cfg c st
      (logged ERROR (error_text e)
         (stored (image_path cfg (counter st))
            (tagged location (append_row data st))))
| photo_taken data location bytes :
    sample c (counter st) = Ok data ->
    csv_append c = Ok tt ->
    remaining cfg st = true ->
    capture_coordinates c = Ok location ->
    camera_capture c = Ok tt ->
    st_size c = Ok bytes ->
    pass_outcome cfg c st
      (finished cfg c
         (photo_logged (counter st)
            (set_photos_size (photos_size st + Z.of_N bytes)
               (stored (image_path cfg (counter st))
                  (tagged location (append_row data st))))))
| budget_exhausted data :
    sample c (counter st) = Ok data ->
    csv_append c = Ok tt ->
    remaining cfg st = false ->
    pass_outcome cfg c st
      (finished cfg c
         (logged INFO (exhausted_text (counter st)) (append_row data st))).

(** The keys [capture] writes in [cam.exif_tags]. *)
Definition gps_keys : list string :=
  ["GPS.GPSLatitude"; "GPS.GPSLatitudeRef";
   "GPS.GPSLongitude"; "GPS.GPSLongitudeRef"].

Definition is_info (line : Level * string) : bool :=
  match line.1 with INFO => true | ERROR => false end.

Definition is_error (line : Level * string) : bool :=
  match line.1 with INFO => false | ERROR => true end.

(** The lines of the log at one level. *)
Definition info_lines (st : State) : list (Level * string) :=
  List.filter is_info (events_log st).

Definition error_lines (st : State) : list (Level * string) :=
  List.filter is_error (events_log st).

(** The state reached after [n] passes of a run started at clock reads
    [start] and [now]. *)
Definition run (cfg : Settings) (world : nat -> Cycle) (n : nat)
           (start now : Z) : State :=
  passes cfg world n 0 (initial_state start now).

(** Line 163. *)
Definition ended_text (st : State) : string :=
  "Ended on iteration " +:+ fmt_d (counter st) +:+ ".".

(** A dictionary of the magnetometer that lacks its [y] entry. *)
Definition compass_without_y (c : Cycle) : Cycle :=
  mkCycle (Ok (<["x" := 1%Q]> (<["z" := 3%Q]> ∅)))
          (get_orientation c) (get_accelerometer_raw c)
          (sense_humidity c) (sense_temperature c) (loop_coordinates c)
          (row_now c) (csv_append c) (capture_coordinates c)
          (camera_capture c) (st_size c) (loop_now c).

(** The same pass with [data.csv] not writable. *)
Definition disk_full (c : Cycle) : Cycle :=
  mkCycle (get_compass_raw c) (get_orientation c) (get_accelerometer_raw c)
          (sense_humidity c) (sense_temperature c) (loop_coordinates c)
          (row_now c)
          (Raise (mkException "OSError" "[Errno 28] No space left on device"))
          (capture_coordinates c) (camera_capture c) (st_size c) (loop_now c).

(** The same pass with the size of the image not readable. *)
Definition stat_down (c : Cycle) : Cycle :=
  mkCycle (get_compass_raw c) (get_orientation c) (get_accelerometer_raw c)
          (sense_humidity c) (sense_temperature c) (loop_coordinates c)
          (row_now c) (csv_append c) (capture_coordinates c)
          (camera_capture c)
          (Raise (mkException "FileNotFoundError" "[Errno 2] No such file"))
          (loop_now c).

(** The same pass with the position read of [capture] raising. *)
Definition orbit_down (c : Cycle) : Cycle :=
  mkCycle (get_compass_raw c) (get_orientation c) (get_accelerometer_raw c)
          (sense_humidity c) (sense_temperature c) (loop_coordinates c)
          (row_now c) (csv_append c)
          (Raise (mkException "ValueError" "ephemeris segment"))
          (camera_capture c) (st_size c) (loop_now c).

(** Every pass succeeds; the clock after the sleep of pass [i] shows
    [(i + 1)] times ten seconds past [1]. *)
Definition ten_seconds (i : nat) : Cycle :=
  nominal london london 600 5 (1 + Z.of_nat (S i) * 10000000).

(** A run ceiling of one minute. *)
Definition one_minute : Settings :=
  mkSettings "/home/pi" 1 10 2684354560.

(** ** Invariants of a run *)

(** The log and the counter after [k] passes. *)
Definition bookkeeping (cfg : Settings) (k : nat) (st : State) : Prop :=
  length (events_log st) = k /\
  counter st = 1 + Z.of_nat (length (info_lines st)) /\
  (length (info_lines st) + length (error_lines st) = k)%nat /\
  slept st = sampling_delta_secs cfg * (counter st - 1).

(** The shape of [data.csv] after [k] passes. *)
Definition csv_shape (k : nat) (st : State) : Prop :=
  data_file st = Header header :: (Data <$> rows st) /\
  1 <= counter st /\
  counter st - 1 <= Z.of_nat (length (rows st)) /\
  (length (rows st) <= k)%nat /\
  Forall (fun r => 1 <= row_counter r <= counter st) (rows st) /\
  StronglySorted Z.le (row_counter <$> rows st).

(** Tags that hold the four GPS entries of one position. *)
Definition geotagged (tags : gmap string string) : Prop :=
  exists location,
    tags !! "GPS.GPSLatitude" = Some (convert (latitude location)).2 /\
    tags !! "GPS.GPSLatitudeRef" =
      Some (if (convert (latitude location)).1 then "S" else "N") /\
    tags !! "GPS.GPSLongitude" = Some (convert (longitude location)).2 /\
    tags !! "GPS.GPSLongitudeRef" =
      Some (if (convert (longitude location)).1 then "W" else "E").

Definition photos_named_and_tagged (cfg : Settings) (st : State) : Prop :=
  1 <= counter st /\
  forall path tags,
    photos st !! path = Some tags ->
    geotagged tags /\
    exists k, 1 <= k <= counter st /\ path = image_path cfg k.

(** A photo whose pass completed stays under its name. *)
Definition keeps_photo (cfg : Settings) (n : Z) (tags : gmap string string)
           (st : State) : Prop :=
  n < counter st /\ photos st !! image_path cfg n = Some tags.

(** A row value that is the entry of a dictionary, rounded. *)
Definition rounded_entry (d : gmap string Q) (key : string) (ndigits : nat)
           (r : Q) : Prop :=
  exists v, d !! key = Some v /\ r = py_round v ndigits.

(** ** Exceptions that [except Exception] does not match

    What a Python [raise] carries is an instance of [BaseException].
    [Exception] is the subclass the handler of line 160 names;
    [KeyboardInterrupt] and [SystemExit] derive from [BaseException]
    directly, so the handler does not match them. *)
Inductive Interrupt : Type :=
| KeyboardInterrupt            (* SIGINT delivered to the process *)
| SystemExit (code : Z).       (* sys.exit(code) *)

Inductive BaseException : Type :=
| Instance (e : Exception)     (* isinstance(x, Exception) *)
| Other (b : Interrupt).

(** Class name and [str] of an interrupt, as a traceback shows them. *)
Definition describe (b : Interrupt) : Exception :=
  match b with
  | KeyboardInterrupt => mkException "KeyboardInterrupt" ""
  | SystemExit code => mkException "SystemExit" (fmt_d code)
  end.

(** One pass through the loop body in which a call may raise either kind.
    The body ends at its first raise, so the pass is given by the answers
    up to the call that raises, which [answers] holds, and by what that
    call raises: the [Exception] of its entry in [answers] when
    [interrupt] is [None], the interrupt otherwise. *)
Record Pass := mkPass { answers : Cycle; interrupt : option Interrupt }.

(** A pass in which whatever is raised is an instance of [Exception]. *)
Definition quiet (c : Cycle) : Pass := mkPass c None.

(** The body of the [try], lines 99-159, in a pass: a raise keeps the
    state reached so far, whatever is raised. *)
Definition try_body (cfg : Settings) (p : Pass) (st : State)
  : (unit + BaseException) * State :=
  match body cfg (answers p) st with
  | (Ok u, st') => (inl u, st')
  | (Raise e, st') =>
      (inr (match interrupt p with
            | Some b => Other b
            | None => Instance e
            end), st')
  end.

(** [try: ... except Exception as e: logger.error(...)], lines 97-161: an
    instance of [Exception] goes to the handler, anything else leaves the
    statement as it came. *)
Definition try_statement (cfg : Settings) (p : Pass) (st : State)
  : option Interrupt * State :=
  match try_body cfg p st with
  | (inl _, st') => (None, st')
  | (inr (Instance e), st') =>
      (None, (logger_error (exn_class e +:+ ": " +:+ exn_str e) st').2)
  | (inr (Other b), st') => (Some b, st')
  end.

(** The [while] loop and line 163 over such passes: an exception the
    handler does not match leaves the loop and the module, and line 163
    is not reached.  Over [quiet] passes this is [main_loop]. *)
Fixpoint while_loop (cfg : Settings) (sky : nat -> Pass)
         (fuel : nat) (i : nat) (st : State) : Outcome :=
  if loop_condition cfg st then
    match fuel with
    | O => Running st
    | S fuel' =>
        match try_statement cfg (sky i) st with
        | (None, st') => while_loop cfg sky fuel' (S i) st'
        | (Some b, st') => Crashed (describe b) st'
        end
    end
  else
    Ended (logger_info ("Ended on iteration " +:+ fmt_d (counter st) +:+ ".")
                       st).2.







(** * Properties *)

(** ** Rounding *)

Section Rounding.

Local Open Scope Q_scope.

Lemma Qfloor_bounds (x : Q) :
  inject_Z (Qfloor x) <= x < inject_Z (Qfloor x) + 1.
Proof.
  split; [apply Qfloor_le|].
  pose proof (Qlt_floor x) as H. rewrite inject_Z_plus in H. exact H.
Qed.

Lemma round_half_even_near (x : Q) :
  Qabs (inject_Z (round_half_even x) - x) <= 1 # 2.
Proof.
  unfold round_half_even.
  destruct (Qfloor_bounds x) as [Hlo Hhi].
  set (f := Qfloor x) in *.
  apply Qabs_Qle_condition.
  destruct (Qcompare_spec (x - inject_Z f) (1 # 2)) as [He|Hl|Hg].
  - destruct (Z.even f);
      [|rewrite inject_Z_plus; change (inject_Z 1) with 1];
      split; lra.
  - split; lra.
  - rewrite inject_Z_plus; change (inject_Z 1) with 1. split; lra.
Qed.

Lemma round_half_even_inject (z : Z) : round_half_even (inject_Z z) = z.
Proof.
  unfold round_half_even. rewrite Qfloor_Z.
  destruct (Qcompare_spec (inject_Z z - inject_Z z) (1 # 2)) as [He|Hl|Hg];
    [lra | reflexivity | lra].
Qed.


Lemma round_half_even_comp (x y : Q) :
  x == y -> round_half_even x = round_half_even y.
Proof.
  intros E. unfold round_half_even.
  rewrite (Qfloor_comp _ _ E).
  assert (E' : x - inject_Z (Qfloor y) == y - inject_Z (Qfloor y)) by lra.
  rewrite (Qcompare_comp _ _ E' _ _ (Qeq_refl _)). reflexivity.
Qed.


Lemma round_half_even_nonneg (x : Q) :
  0 <= x -> (0 <= round_half_even x)%Z.
Proof.
  intros H. unfold round_half_even.
  assert (0 <= Qfloor x)%Z.
  { change 0%Z with (Qfloor 0). apply Qfloor_resp_le, H. }
  destruct (Qcompare _ _); [destruct (Z.even _)|..]; lia.
Qed.

Lemma Qltb_comp (x y z : Q) : x == y -> Qltb x z = Qltb y z.
Proof.
  intros E. unfold Qltb. rewrite (Qcompare_comp _ _ E _ _ (Qeq_refl _)).
  reflexivity.
Qed.

Lemma Qltb_true (x y : Q) : Qltb x y = true <-> x < y.
Proof.
  unfold Qltb. destruct (Qcompare_spec x y) as [E|L|G]; split; intros H;
    try reflexivity; try discriminate; try assumption; lra.
Qed.

Lemma Qltb_false (x y : Q) : Qltb x y = false <-> y <= x.
Proof.
  unfold Qltb. destruct (Qcompare_spec x y) as [E|L|G]; split; intros H;
    try reflexivity; try discriminate; lra.
Qed.

End Rounding.

(** ** Rounding to binary64 *)

Section Binary64.

Local Open Scope Q_scope.

Lemma two_neq_0 : ~ 2 == 0.
Proof. discriminate. Qed.

Lemma pow2_pos (e : Z) : 0 < 2 ^ e.
Proof. now apply Qpower_0_lt. Qed.

(** [ilog2 x] is not above the logarithm of [|x|]. *)
Lemma ilog2_le (x : Q) : ~ x == 0 -> 2 ^ ilog2 x <= Qabs x.
Proof.
  intros Hx. unfold ilog2.
  set (a := Z.abs (Qnum x)). set (b := Z.pos (Qden x)).
  destruct (Qle_bool _ _) eqn:Hle; [now apply Qle_bool_iff|].
  assert (Ha : (0 < a)%Z).
  { unfold a. destruct x as [[|n|n] d]; cbn [Qnum Z.abs]; try lia.
    exfalso. apply Hx. reflexivity. }
  assert (Hb : (0 < b)%Z) by (unfold b; lia).
  destruct (Z.log2_spec a Ha) as [Ha1 _].
  destruct (Z.log2_spec b Hb) as [_ Hb2].
  pose proof (Z.log2_nonneg a) as Hla. pose proof (Z.log2_nonneg b) as Hlb.
  replace (Z.log2 a - Z.log2 b - 1)%Z
    with (Z.log2 a - Z.succ (Z.log2 b))%Z by lia.
  rewrite (Qpower_minus 2 _ _ two_neq_0).
  change 2 with (inject_Z 2).
  rewrite <- !Zpower_Qpower by lia.
  assert (E : Qabs x == inject_Z a / inject_Z b).
  { unfold a, b. destruct x as [n d]. cbn [Qabs Qnum Qden].
    apply Qmake_Qdiv. }
  rewrite E.
  rewrite Zle_Qle in Ha1. rewrite Zlt_Qlt in Hb2, Ha, Hb.
  change (inject_Z 0) with 0 in *.
  set (P := inject_Z (2 ^ Z.log2 a)) in *.
  set (Y := inject_Z (2 ^ Z.succ (Z.log2 b))) in *.
  set (A := inject_Z a) in *. set (B := inject_Z b) in *.
  clearbody P Y A B. clear E.
  apply Qle_shift_div_r; [lra|].
  assert (Hr : 0 <= A / B) by (apply Qle_shift_div_l; lra).
  assert (Hm : A / B * B == A) by (field; intros N; lra).
  set (r := A / B) in *. nra.
Qed.

Lemma ilog2_lt (x : Q) (L : Z) :
  ~ x == 0 -> Qabs x < 2 ^ L -> (ilog2 x < L)%Z.
Proof.
  intros Hx H. apply (Qpower_lt_compat_l_inv 2); [|reflexivity].
  eapply Qle_lt_trans; [apply ilog2_le, Hx | exact H].
Qed.

(** Half a unit in the last place bounds the error of [fl]. *)
Lemma fl_error (x : Q) (L : Z) :
  Qabs x < 2 ^ L -> (-1021 <= L)%Z ->
  Qabs (fl x - x) <= 2 ^ (L - 54).
Proof.
  intros H HL. unfold fl.
  destruct (Qeq_bool x 0) eqn:Hz.
  - apply Qeq_bool_eq in Hz.
    assert (E : 0 - x == 0) by lra. rewrite E. cbn [Qabs Z.abs Qnum Qden].
    apply Qlt_le_weak, pow2_pos.
  - apply Qeq_bool_neq in Hz.
    pose proof (ilog2_lt x L Hz H) as Hl.
    set (e := ulp_exponent x).
    assert (He : (e <= L - 53)%Z) by (unfold e, ulp_exponent; lia).
    pose proof (pow2_pos e) as Hp.
    pose proof (round_half_even_near (x / 2 ^ e)) as Hn.
    set (k := round_half_even (x / 2 ^ e)) in *.
    assert (Ex : x == x / 2 ^ e * 2 ^ e).
    { field. intros N. lra. }
    assert (E : inject_Z k * 2 ^ e - x == (inject_Z k - x / 2 ^ e) * 2 ^ e).
    { set (y := x / 2 ^ e) in *. rewrite Ex at 1. ring. }
    rewrite E, Qabs_Qmult, (Qabs_pos (2 ^ e)) by lra.
    apply Qle_trans with ((1 # 2) * 2 ^ e).
    + apply Qmult_le_compat_r; [exact Hn | lra].
    + apply Qle_trans with (2 ^ (e - 1)).
      * rewrite (Qpower_minus 2 _ _ two_neq_0). apply Qle_lteq. right.
        change (2 ^ 1) with 2. field.
      * apply Qpower_le_compat_l; [lia | discriminate].
Qed.

Lemma fl_nonneg (x : Q) : 0 <= x -> 0 <= fl x.
Proof.
  intros H. unfold fl. destruct (Qeq_bool x 0); [lra|].
  set (e := ulp_exponent x). pose proof (pow2_pos e) as Hp.
  apply Qmult_le_0_compat; [|lra].
  change 0 with (inject_Z 0). rewrite <- Zle_Qle.
  apply round_half_even_nonneg. apply Qle_shift_div_l; lra.
Qed.

(** The product of the seconds by ten: below 1024, so the float is
    within [2^-44] of the exact product. *)
Lemma fmul_seconds (s : Q) :
  0 <= s < 60 ->
  0 <= fmul s 10 /\
  Qabs (fmul s 10 - s * 10) <= 1 # 17592186044416.
Proof.
  intros [H0 H60]. unfold fmul. split.
  - apply fl_nonneg. lra.
  - assert (E : 1 # 17592186044416 == 2 ^ (10 - 54)) by reflexivity.
    rewrite E. apply fl_error; [|lia].
    rewrite Qabs_pos by lra. change (2 ^ 10) with 1024. lra.
Qed.

End Binary64.

(** ** Formatting *)

Lemma fmt0f_comp (x y : Q) : (x == y)%Q -> fmt0f x = fmt0f y.
Proof.
  intros E. unfold fmt0f.
  rewrite (Qltb_comp _ _ _ E), (round_half_even_comp _ _ E). reflexivity.
Qed.


Lemma fmt0f_nonneg (x : Q) :
  (0 <= x)%Q -> fmt0f x = digits (Z.to_N (round_half_even x)).
Proof.
  intros H. unfold fmt0f.
  assert (Qltb x 0 = false) as -> by (apply Qltb_false, H).
  pose proof (round_half_even_nonneg x H).
  rewrite Zabs2N.abs_N_nonneg by assumption. reflexivity.
Qed.

Lemma inject_Z_nonneg (z : Z) : 0 <= z -> (0 <= inject_Z z)%Q.
Proof. intros H. change 0%Q with (inject_Z 0). now rewrite <- Zle_Qle. Qed.

Lemma fmt0f_inject (z : Z) :
  0 <= z -> fmt0f (inject_Z z) = digits (Z.to_N z).
Proof.
  intros H. rewrite fmt0f_nonneg by now apply inject_Z_nonneg.
  now rewrite round_half_even_inject.
Qed.



(** The [:.0f] format itself sends a tie to the even neighbour. *)
Example fmt0f_ties :
  fmt0f (1 # 2) = "0" /\ fmt0f (3 # 2) = "2" /\ fmt0f (5 # 2) = "2" /\
  fmt0f_away (5 # 2) = "3" /\ fmt0f (-3 # 10) = "-0".
Proof. repeat split; reflexivity. Qed.

Example fmt_04d_samples :
  fmt_04d 1 = "0001" /\ fmt_04d 12345 = "12345" /\ fmt_04d (-5) = "-005".
Proof. repeat split; reflexivity. Qed.

(** ** The decomposition of an angle *)

Lemma signed_dms_decomposition (a : Angle) :
  exists D Mi : Z,
    0 <= D /\ 0 <= Mi < 60 /\
    (dms_degrees a == inject_Z D)%Q /\
    (dms_minutes a == inject_Z Mi)%Q /\
    (0 <= dms_seconds a < 60)%Q /\
    (Qabs (degrees a) ==
       inject_Z D + inject_Z Mi * (1 # 60) + dms_seconds a * (1 # 3600))%Q.
Proof.
  unfold dms_degrees, dms_minutes, dms_seconds, signed_dms, exact_divmod.
  cbv beta iota zeta delta [fst snd].
  set (x := (Qabs (degrees a) * 3600)%Q).
  assert (Hx : (0 <= x)%Q).
  { unfold x. pose proof (Qabs_nonneg (degrees a)). lra. }
  assert (Hdiv : forall y : Q, (y / 60 == y * (1 # 60))%Q)
    by (intros y; reflexivity).
  destruct (Qfloor_bounds (x / 60)) as [H1 H2].
  set (F := Qfloor (x / 60)) in *.
  destruct (Qfloor_bounds (inject_Z F / 60)) as [H3 H4].
  set (D := Qfloor (inject_Z F / 60)) in *.
  rewrite Hdiv in H1, H2, H3, H4.
  assert (HF : 0 <= F).
  { unfold F. change 0 with (Qfloor 0). apply Qfloor_resp_le.
    rewrite Hdiv. lra. }
  assert (HD : 0 <= D).
  { unfold D. change 0 with (Qfloor 0). apply Qfloor_resp_le.
    rewrite Hdiv. apply inject_Z_nonneg in HF. lra. }
  assert (E : (inject_Z (F - D * 60) == inject_Z F - inject_Z D * 60)%Q).
  { unfold Z.sub. rewrite inject_Z_plus, inject_Z_opp, inject_Z_mult.
    change (inject_Z 60) with 60%Q. lra. }
  exists D, (F - D * 60).
  assert (HM : 0 <= F - D * 60 < 60).
  { split; [rewrite Zle_Qle | rewrite Zlt_Qlt]; rewrite E.
    - change (inject_Z 0) with 0%Q. lra.
    - change (inject_Z 60) with 60%Q. lra. }
  repeat split; try lia; try lra.
  rewrite E. unfold x. lra.
Qed.

Lemma dms_sign_negative (a : Angle) :
  Qltb (dms_sign a) 0 = Qltb (degrees a) 0.
Proof.
  unfold dms_sign, signed_dms, exact_divmod.
  cbv beta iota zeta delta [fst snd]. unfold np_sign, Qltb.
  destruct (Qcompare_spec (degrees a) 0); reflexivity.
Qed.

Lemma convert_components (a : Angle) :
  convert a =
    (Qltb (dms_sign a) 0,
     fmt0f (dms_degrees a) +:+ "/1," +:+ fmt0f (dms_minutes a) +:+ "/1," +:+
     fmt0f (fmul (dms_seconds a) 10) +:+ "/10").
Proof.
  unfold convert, dms_sign, dms_degrees, dms_minutes, dms_seconds.
  destruct (signed_dms a) as [[[sg d] m] s]. reflexivity.
Qed.

(** [convert] in closed form: the sign flag and the rendering of the
    degrees, the minutes and the rounded tenths of seconds. *)
Lemma convert_render (a : Angle) :
  exists D Mi : Z,
    0 <= D /\ 0 <= Mi < 60 /\
    (dms_degrees a == inject_Z D)%Q /\
    (dms_minutes a == inject_Z Mi)%Q /\
    (0 <= dms_seconds a < 60)%Q /\
    (Qabs (degrees a) ==
       inject_Z D + inject_Z Mi * (1 # 60) + dms_seconds a * (1 # 3600))%Q /\
    convert a =
      (Qltb (degrees a) 0,
       render (Z.to_N D) (Z.to_N Mi)
              (Z.to_N (round_half_even (fmul (dms_seconds a) 10)))).
Proof.
  destruct (signed_dms_decomposition a)
    as (D & Mi & HD & HMi & Ed & Em & Hs & Hsum).
  exists D, Mi. repeat (split; [assumption|]).
  rewrite convert_components, dms_sign_negative. unfold render.
  rewrite (fmt0f_comp _ _ Ed), (fmt0f_comp _ _ Em).
  rewrite !fmt0f_inject by lia.
  rewrite fmt0f_nonneg by (now apply fmul_seconds). reflexivity.
Qed.

(** ** Reading back what [convert] wrote *)

Section Parsing.

Import Decoder.

Lemma append_empty_r (s : string) : s +:+ "" = s.
Proof.
  induction s as [|c s IH]; [reflexivity|].
  change (String c s +:+ "") with (String c (s +:+ "")). now rewrite IH.
Qed.

Lemma split_on_cons (sep : ascii) (s : string) :
  exists w ws, split_on sep s = w :: ws.
Proof.
  destruct s as [|c s]; cbn [split_on]; [eauto|].
  destruct (Ascii.eqb c sep); [eauto|].
  destruct (split_on sep s); eauto.
Qed.

(** A prefix free of the separator stays in the first piece. *)
Lemma split_on_app (sep : ascii) (a b : string) :
  no_char sep a ->
  split_on sep (a +:+ b) =
    match split_on sep b with
    | [] => [a]
    | w :: ws => (a +:+ w) :: ws
    end.
Proof.
  induction a as [|c a IH]; intros H.
  - change ("" +:+ b) with b.
    destruct (split_on_cons sep b) as (w & ws & ->). reflexivity.
  - destruct H as [Hc Ha].
    change (String c a +:+ b) with (String c (a +:+ b)).
    cbn [split_on]. rewrite Hc, (IH Ha).
    destruct (split_on_cons sep b) as (w & ws & ->). reflexivity.
Qed.

Lemma split_on_no_char (sep : ascii) (a : string) :
  no_char sep a -> split_on sep a = [a].
Proof.
  intros H. pose proof (split_on_app sep a "" H) as E.
  cbn [split_on] in E. now rewrite !append_empty_r in E.
Qed.

Lemma no_char_app (sep : ascii) (a b : string) :
  no_char sep a -> no_char sep b -> no_char sep (a +:+ b).
Proof.
  intros Ha Hb. induction a as [|c a IH]; [exact Hb|].
  destruct Ha as [Hc Ha]. split; [exact Hc | exact (IH Ha)].
Qed.

Lemma string_of_uint_no_char (sep : ascii) (d : uint) :
  is_digit sep = false -> no_char sep (NilEmpty.string_of_uint d).
Proof.
  intros H.
  induction d; cbn [NilEmpty.string_of_uint no_char]; try exact I;
    (split; [|assumption]);
    match goal with
    | |- Ascii.eqb ?c sep = false =>
        destruct (Ascii.eqb_spec c sep) as [E|E]; [|reflexivity];
        rewrite <- E in H; discriminate H
    end.
Qed.

Lemma digits_no_char (sep : ascii) (n : N) :
  is_digit sep = false -> no_char sep (digits n).
Proof. apply string_of_uint_no_char. Qed.

Lemma parse_nat_digits (n : N) : parse_nat (digits n) = Some n.
Proof.
  unfold parse_nat, digits. rewrite NilEmpty.usu. cbn.
  now rewrite DecimalN.Unsigned.of_to.
Qed.

Lemma parse_rational_digits (n : N) (den : string) (d : positive) :
  no_char "/" den -> parse_nat den = Some (Npos d) ->
  parse_rational (digits n +:+ String "/" den) = Some (Z.of_N n # d)%Q.
Proof.
  intros Hden Hd. unfold parse_rational.
  rewrite split_on_app by (now apply digits_no_char).
  cbn [split_on]. rewrite Ascii.eqb_refl.
  rewrite (split_on_no_char _ _ Hden).
  rewrite append_empty_r, parse_nat_digits, Hd. reflexivity.
Qed.

Lemma decode_exif_render (d m s : N) :
  decode_exif (render d m s) =
    Some ((Z.of_N d # 1) + (Z.of_N m # 1) / 60 + (Z.of_N s # 10) / 3600)%Q.
Proof.
  unfold decode_exif, render.
  assert (Hcomma : forall n, no_char "," (digits n)).
  { intros n. now apply digits_no_char. }
  rewrite split_on_app by apply Hcomma.
  change (split_on "," ("/1," +:+ digits m +:+ "/1," +:+ digits s +:+ "/10"))
    with ("/1" :: split_on "," (digits m +:+ "/1," +:+ digits s +:+ "/10")).
  rewrite split_on_app by apply Hcomma.
  change (split_on "," ("/1," +:+ digits s +:+ "/10"))
    with ("/1" :: split_on "," (digits s +:+ "/10")).
  rewrite (split_on_no_char "," (digits s +:+ "/10")).
  2:{ apply no_char_app; [apply Hcomma | now cbn]. }
  change (digits d +:+ "/1") with (digits d +:+ String "/" "1").
  change (digits m +:+ "/1") with (digits m +:+ String "/" "1").
  change (digits s +:+ "/10") with (digits s +:+ String "/" "10").
  rewrite (parse_rational_digits d "1" 1), (parse_rational_digits m "1" 1),
    (parse_rational_digits s "10" 10); try reflexivity; now cbn.
Qed.

End Parsing.

(** ** The angle encoder: the claims *)

Example convert_docstring :
  convert (mkAngle (98 + (34 # 60) + (587 # 36000))%Q)
  = (false, "98/1,34/1,587/10").
Proof. vm_compute. reflexivity. Qed.

(** C9.  The encoder maps 51.5074 degrees to the flag [false] and the
    string 51/1,30/1,266/10, and -0.1278 degrees to the flag [true] and
    the string 0/1,7/1,401/10; this holds for the two decimal numbers and
    for the two floats that the literals 51.5074 and -0.1278 denote. *)
Theorem convert_scenarios :
  convert (mkAngle (fl (515074 # 10000))) = (false, "51/1,30/1,266/10") /\
  convert (mkAngle (fl (-1278 # 10000))) = (true, "0/1,7/1,401/10") /\
  convert (mkAngle (515074 # 10000)) = (false, "51/1,30/1,266/10") /\
  convert (mkAngle (-1278 # 10000)) = (true, "0/1,7/1,401/10").
Proof. repeat split; vm_compute; reflexivity. Qed.


(** C4.  For every angle [theta] between -179.999 and 179.999 degrees,
    decoding what the encoder returns gives back [theta] within 1/36000
    of a degree, and the flag the encoder returns is [true] exactly when
    [theta] is negative. *)
Theorem convert_roundtrip (theta : Q) :
  (- (179999 # 1000) <= theta <= 179999 # 1000)%Q ->
  exists v : Q,
    Decoder.decode (convert (mkAngle theta)) = Some v /\
    (Qabs (v - theta) <= 1 # 36000)%Q /\
    ((convert (mkAngle theta)).1 = true <-> (theta < 0)%Q).
Proof.
  intros _.
  destruct (convert_render (mkAngle theta))
    as (D & Mi & HD & HMi & _ & _ & Hs & Hsum & ->).
  cbn [degrees] in *.
  destruct (fmul_seconds _ Hs) as [Hpos Herr].
  set (s := dms_seconds (mkAngle theta)) in *.
  pose proof (round_half_even_near (fmul s 10)) as Hnear.
  pose proof (round_half_even_nonneg _ Hpos) as Hn.
  set (t := fmul s 10) in *.
  set (n := round_half_even t) in *.
  unfold Decoder.decode. cbn [fst snd].
  rewrite decode_exif_render. cbn [mbind option_bind].
  eexists. split; [reflexivity|]. split; [|apply Qltb_true].
  rewrite !Z2N.id by lia.
  apply Qabs_Qle_condition in Hnear, Herr.
  apply Qabs_Qle_condition.
  assert (E1 : (inject_Z D == D # 1)%Q) by reflexivity.
  assert (E2 : ((Mi # 1) / 60 == inject_Z Mi * (1 # 60))%Q) by reflexivity.
  assert (E3 : ((n # 10) / 3600 == inject_Z n * (1 # 36000))%Q).
  { unfold Qeq, Qdiv, Qmult, Qinv, inject_Z. cbn. lia. }
  destruct (Qltb theta 0) eqn:Hneg.
  - apply Qltb_true in Hneg.
    rewrite (Qabs_neg theta) in Hsum by lra.
    rewrite E2, E3, <- E1. split; lra.
  - apply Qltb_false in Hneg.
    rewrite (Qabs_pos theta) in Hsum by lra.
    rewrite E2, E3, <- E1. split; lra.
Qed.

Lemma convert_roundtrip_witness :
  (- (179999 # 1000) <= - (1278 # 10000) <= 179999 # 1000)%Q /\
  exists v : Q,
    Decoder.decode (convert (mkAngle (- (1278 # 10000)))) = Some v /\
    (Qabs (v - - (1278 # 10000)) <= 1 # 36000)%Q /\
    ((convert (mkAngle (- (1278 # 10000)))).1 = true
     <-> (- (1278 # 10000) < 0)%Q).
Proof.
  assert (H : (- (179999 # 1000) <= - (1278 # 10000) <= 179999 # 1000)%Q).
  { split; vm_compute; discriminate. }
  split; [exact H | exact (convert_roundtrip _ H)].
Defined.

(** ** Run equations of the loop body *)

Lemma add_csv_data_run c data st :
  add_csv_data c data st =
    match csv_append c with
    | Ok _ => (Ok tt, append_row data st)
    | Raise e => (Raise e, st)
    end.
Proof.
  unfold add_csv_data. cbv [mbind M_bind call modify].
  destruct (csv_append c) as [[]|e]; reflexivity.
Qed.

Lemma capture_run c image st :
  capture c image st =
    match capture_coordinates c with
    | Raise e => (Raise e, st)
    | Ok location =>
        match camera_capture c with
        | Raise e => (Raise e, tagged location st)
        | Ok _ => (Ok tt, stored image (tagged location st))
        end
    end.
Proof.
  unfold capture, tagged, geotags. cbv [mbind M_bind call].
  destruct (capture_coordinates c) as [location|e]; [|reflexivity].
  destruct (convert (latitude location)) as [south exif_latitude].
  destruct (convert (longitude location)) as [west exif_longitude].
  cbv [set_tag modify].
  destruct (camera_capture c) as [[]|e]; reflexivity.
Qed.

Lemma photo_step_run cfg c n st :
  photo_step cfg c n st =
    if remaining cfg st then
      match capture c (image_path cfg n) st with
      | (Raise e, st1) => (Raise e, st1)
      | (Ok _, st1) =>
          match st_size c with
          | Raise e => (Raise e, st1)
          | Ok bytes =>
              (Ok tt,
               photo_logged n
                 (set_photos_size (photos_size st1 + Z.of_N bytes) st1))
          end
      end
    else
      (Ok tt,
       logged INFO
         ("iteration " +:+ fmt_d n +:+ " Max photos size reached.") st).
Proof.
  unfold photo_step. cbv [mbind M_bind gets].
  destruct (remaining cfg st); [|reflexivity].
  destruct (capture c (image_path cfg n) st) as [[[]|e] st1]; [|reflexivity].
  cbv [call consume modify]. destruct (st_size c); reflexivity.
Qed.

Lemma body_run cfg c st :
  body cfg c st =
    match sample c (counter st) with
    | Raise e => (Raise e, st)
    | Ok data =>
        match add_csv_data c data st with
        | (Raise e, st1) => (Raise e, st1)
        | (Ok _, st1) =>
            match photo_step cfg c (counter st) st1 with
            | (Raise e, st2) => (Raise e, st2)
            | (Ok _, st2) => (Ok tt, finished cfg c st2)
            end
        end
    end.
Proof.
  unfold body. cbv [mbind M_bind gets call].
  destruct (sample c (counter st)) as [data|e]; [|reflexivity].
  destruct (add_csv_data c data st) as [[[]|e] st1]; [|reflexivity].
  destruct (photo_step cfg c (counter st) st1) as [[[]|e] st2]; reflexivity.
Qed.

Lemma iteration_run cfg c st :
  iteration cfg c st =
    match body cfg c st with
    | (Ok _, st') => (Ok tt, st')
    | (Raise e, st') =>
        (Ok tt, logged ERROR (exn_class e +:+ ": " +:+ exn_str e) st')
    end.
Proof.
  unfold iteration, try_except.
  destruct (body cfg c st) as [[[]|e] st']; reflexivity.
Qed.

(** Case analysis of a body outcome [H]: one case for each call that can
    raise, and one for each branch of the storage test. *)
Ltac body_cases H :=
  rewrite body_run in H;
  repeat first
    [ rewrite add_csv_data_run in H
    | rewrite photo_step_run in H
    | rewrite capture_run in H
    | match type of H with
      | context [match sample ?c ?n with _ => _ end] =>
          destruct (sample c n) as [?data|?e] eqn:?Hsample
      | context [match csv_append ?c with _ => _ end] =>
          destruct (csv_append c) as [[]|?e] eqn:?Happend
      | context [if remaining ?cfg ?s then _ else _] =>
          destruct (remaining cfg s) eqn:?Hremaining
      | context [match capture_coordinates ?c with _ => _ end] =>
          destruct (capture_coordinates c) as [?location|?e] eqn:?Hcoords
      | context [match camera_capture ?c with _ => _ end] =>
          destruct (camera_capture c) as [[]|?e] eqn:?Hcamera
      | context [match st_size ?c with _ => _ end] =>
          destruct (st_size c) as [?bytes|?e] eqn:?Hstat
      end ];
  inversion H; subst; clear H.

Lemma sample_ok c n data :
  sample c n = Ok data ->
  row_counter data = n /\ row_datetime data = row_now c /\
  exists sampled,
    loop_coordinates c = Ok sampled /\
    row_latitude data = degrees (latitude sampled) /\
    row_longitude data = degrees (longitude sampled).
Proof.
  unfold sample. cbv [mbind result_bind mret result_ret].
  repeat match goal with
         | |- context [match ?x with Ok _ => _ | Raise _ => _ end] =>
             destruct x; [|discriminate]
         end.
  intros [= <-]. cbn. eauto 10.
Qed.

(** A body that raises has changed neither the counter, nor the stored
    time, nor the time slept, nor the storage total, nor the log. *)
Lemma body_raise cfg c st e st' :
  body cfg c st = (Raise e, st') ->
  counter st' = counter st /\ now_time st' = now_time st /\
  slept st' = slept st /\ start_time st' = start_time st /\
  photos_size st' = photos_size st /\ events_log st' = events_log st.
Proof. intros H. body_cases H; repeat split; reflexivity. Qed.

Lemma body_ok cfg c st u st' :
  body cfg c st = (Ok u, st') ->
  counter st' = counter st + 1 /\ now_time st' = loop_now c /\
  slept st' = slept st + sampling_delta_secs cfg /\
  start_time st' = start_time st /\
  exists data, sample c (counter st) = Ok data /\
               data_file st' = data_file st ++ [Data data].
Proof. intros H. body_cases H; cbn; repeat split; eauto. Qed.

Lemma iteration_total cfg c st : (iteration cfg c st).1 = Ok tt.
Proof.
  rewrite iteration_run. destruct (body cfg c st) as [[[]|e] st']; reflexivity.
Qed.

Lemma iteration_raise cfg c st e st' :
  body cfg c st = (Raise e, st') ->
  counter (iteration cfg c st).2 = counter st /\
  now_time (iteration cfg c st).2 = now_time st /\
  slept (iteration cfg c st).2 = slept st /\
  start_time (iteration cfg c st).2 = start_time st /\
  photos_size (iteration cfg c st).2 = photos_size st.
Proof.
  intros H. rewrite iteration_run, H. cbn.
  destruct (body_raise _ _ _ _ _ H) as (? & ? & ? & ? & ? & ?). tauto.
Qed.

Lemma iteration_ok cfg c st u st' :
  body cfg c st = (Ok u, st') -> (iteration cfg c st).2 = st'.
Proof. intros H. rewrite iteration_run, H. reflexivity. Qed.

Lemma loop_condition_frame cfg st st' :
  now_time st' = now_time st -> start_time st' = start_time st ->
  loop_condition cfg st' = loop_condition cfg st.
Proof. unfold loop_condition. now intros -> ->. Qed.

(** Over passes that raise instances of [Exception] only, nothing leaves
    the loop by an exception. *)
Lemma main_loop_never_crashes cfg world fuel :
  forall i st e st', main_loop cfg world fuel i st <> Crashed e st'.
Proof.
  induction fuel as [|fuel IH]; intros i st e st'; cbn [main_loop];
    destruct (loop_condition cfg st); try discriminate.
  pose proof (iteration_total cfg (world i) st) as T.
  destruct (iteration cfg (world i) st) as [[[]|e0] st0];
    [apply IH | discriminate T].
Qed.

(** ** Append before capture *)

(** C1, as the specification states it, fails: the camera raises in a
    pass with storage left, and the row of that pass is in the file. *)
Lemma capture_failure_drops_row_refuted :
  ~ spec_capture_failure_drops_row pi_settings (camera_down first_pass)
      (initial_state 0 1).
Proof.
  unfold spec_capture_failure_drops_row. intros H.
  assert (E : data_file (iteration pi_settings (camera_down first_pass)
                                   (initial_state 0 1)).2
              = data_file (initial_state 0 1)).
  { apply H; [reflexivity|]. eexists _, _. vm_compute. repeat split. }
  vm_compute in E. discriminate E.
Qed.

(** C1, amended.  In a pass where the sampling and the append succeed,
    storage remains and the photo step raises, the row of the pass has been
    appended to the file: line 142 runs before line 147, and the handler
    only logs the exception. *)
Theorem capture_failure_keeps_row cfg c st data e :
  remaining cfg st = true ->
  sample c (counter st) = Ok data ->
  csv_append c = Ok tt ->
  (photo_step cfg c (counter st) (append_row data st)).1 = Raise e ->
  data_file (iteration cfg c st).2 = data_file st ++ [Data data] /\
  row_counter data = counter st /\
  events_log (iteration cfg c st).2 =
    events_log st ++ [(ERROR, exn_class e +:+ ": " +:+ exn_str e)].
Proof.
  intros Hrem Hsample Happend Hphoto.
  destruct (sample_ok _ _ _ Hsample) as (Hn & _).
  rewrite iteration_run, body_run, Hsample, add_csv_data_run, Happend.
  destruct (photo_step cfg c (counter st) (append_row data st))
    as [r st2] eqn:Hstep.
  cbn [fst] in Hphoto. subst r.
  cbn [snd logged events_log set_events_log data_file].
  assert (data_file st2 = data_file st ++ [Data data] /\
          events_log st2 = events_log st) as [-> ->]; [|auto].
  rewrite photo_step_run in Hstep.
  change (remaining cfg (append_row data st)) with (remaining cfg st) in Hstep.
  rewrite Hrem, capture_run in Hstep.
  destruct (capture_coordinates c);
    [destruct (camera_capture c) as [[]|]; [destruct (st_size c)|]|];
    inversion Hstep; subst; split; reflexivity.
Qed.

Lemma capture_failure_keeps_row_witness :
  exists data e,
    remaining pi_settings (initial_state 0 1) = true /\
    sample (camera_down first_pass) (counter (initial_state 0 1)) = Ok data /\
    csv_append (camera_down first_pass) = Ok tt /\
    (photo_step pi_settings (camera_down first_pass)
                (counter (initial_state 0 1))
                (append_row data (initial_state 0 1))).1 = Raise e /\
    data_file (iteration pi_settings (camera_down first_pass)
                         (initial_state 0 1)).2
      = data_file (initial_state 0 1) ++ [Data data] /\
    row_counter data = counter (initial_state 0 1) /\
    events_log (iteration pi_settings (camera_down first_pass)
                          (initial_state 0 1)).2
      = events_log (initial_state 0 1) ++
        [(ERROR, exn_class e +:+ ": " +:+ exn_str e)].
Proof.
  destruct (sample (camera_down first_pass) (counter (initial_state 0 1)))
    as [data|e] eqn:Hsample; [|vm_compute in Hsample; discriminate Hsample].
  exists data, (mkException "PiCameraRuntimeError" "No data received").
  assert (H1 : remaining pi_settings (initial_state 0 1) = true)
    by reflexivity.
  assert (H3 : csv_append (camera_down first_pass) = Ok tt) by reflexivity.
  assert (H4 : (photo_step pi_settings (camera_down first_pass)
                  (counter (initial_state 0 1))
                  (append_row data (initial_state 0 1))).1
               = Raise (mkException "PiCameraRuntimeError" "No data received"))
    by reflexivity.
  repeat (split; [assumption || reflexivity|]).
  exact (capture_failure_keeps_row _ _ _ _ _ H1 Hsample H3 H4).
Defined.

(** ** The counter *)

(** C2, as the specification states it, fails: the camera raises in the
    first pass and the counter is still 1 afterwards; the row of the next
    pass carries the counter 1 a second time. *)
Lemma counter_always_advances_refuted :
  ~ spec_counter_always_advances pi_settings (camera_down first_pass)
      (initial_state 0 1)
  /\ row_counter <$>
       rows (passes pi_settings camera_down_once 2 0 (initial_state 0 1))
     = [1; 1].
Proof.
  split; [|vm_compute; reflexivity].
  unfold spec_counter_always_advances. vm_compute. discriminate.
Qed.

(** C2, amended.  A pass whose body completes adds exactly 1 to the
    counter; a pass whose body raises leaves the counter as it was, so the
    next pass works with the same counter value. *)
Theorem counter_advances_when_body_completes cfg c st :
  counter (iteration cfg c st).2 =
    match (body cfg c st).1 with
    | Ok _ => counter st + 1
    | Raise _ => counter st
    end.
Proof.
  destruct (body cfg c st) as [[u|e] st'] eqn:H; cbn [fst].
  - rewrite (iteration_ok _ _ _ _ _ H).
    now destruct (body_ok _ _ _ _ _ H) as (? & _).
  - now destruct (iteration_raise _ _ _ _ _ H) as (? & _).
Qed.

(** ** The handler *)


(** A pass that no exception leaves is a pass of [iteration]. *)
Lemma try_statement_uninterrupted cfg p st :
  (try_statement cfg p st).1 = None ->
  try_statement cfg p st = (None, (iteration cfg (answers p) st).2).
Proof.
  unfold try_statement, try_body. rewrite iteration_run.
  destruct (body cfg (answers p) st) as [[[]|e] st']; [reflexivity|].
  destruct (interrupt p); [discriminate|reflexivity].
Qed.

Lemma try_statement_quiet cfg c st :
  try_statement cfg (quiet c) st = (None, (iteration cfg c st).2).
Proof.
  apply try_statement_uninterrupted.
  unfold try_statement, try_body, quiet. cbn [answers interrupt].
  destruct (body cfg c st) as [[[]|e] st']; reflexivity.
Qed.

(** Over passes that raise instances of [Exception] only, the loop is
    [main_loop]. *)
Lemma while_loop_quiet cfg world fuel :
  forall i st,
    while_loop cfg (fun n => quiet (world n)) fuel i st
    = main_loop cfg world fuel i st.
Proof.
  induction fuel as [|fuel IH]; intros i st; cbn [while_loop main_loop];
    [reflexivity|].
  destruct (loop_condition cfg st); [|reflexivity].
  rewrite try_statement_quiet.
  pose proof (iteration_total cfg (world i) st) as T.
  destruct (iteration cfg (world i) st) as [[[]|e] st1]; [|discriminate T].
  apply IH.
Qed.






(** ** Sleep and clock after a failure *)

(** C7, as the specification states it, fails: the first sensor read
    raises, and the pass has neither slept nor refreshed the time. *)
Lemma failed_iteration_sleeps_refuted :
  ~ spec_failed_iteration_sleeps pi_settings (sensor_down first_pass)
      (initial_state 0 1).
Proof.
  unfold spec_failed_iteration_sleeps. intros H.
  destruct H as [H _]; [eexists; vm_compute; reflexivity|].
  vm_compute in H. discriminate H.
Qed.

(** C7, amended.  After a pass whose body raises, the loop has not slept
    and has not refreshed the stored time: lines 157 and 159 are inside
    the [try], after every call that can raise, so the loop test is
    evaluated again at once on the time of the last pass that completed. *)
Theorem failed_iteration_skips_sleep_and_refresh cfg c st e st' :
  body cfg c st = (Raise e, st') ->
  slept (iteration cfg c st).2 = slept st /\
  now_time (iteration cfg c st).2 = now_time st /\
  loop_condition cfg (iteration cfg c st).2 = loop_condition cfg st.
Proof.
  intros H. destruct (iteration_raise _ _ _ _ _ H) as (_ & Hn & Hs & Ht & _).
  repeat split; try assumption. now apply loop_condition_frame.
Qed.

Lemma failed_iteration_skips_sleep_and_refresh_witness :
  body pi_settings (sensor_down first_pass) (initial_state 0 1)
    = (Raise (mkException "OSError" "Magnetometer Init Failed"),
       initial_state 0 1) /\
  slept (iteration pi_settings (sensor_down first_pass)
                   (initial_state 0 1)).2 = 0 /\
  now_time (iteration pi_settings (sensor_down first_pass)
                      (initial_state 0 1)).2 = 1 /\
  loop_condition pi_settings
    (iteration pi_settings (sensor_down first_pass) (initial_state 0 1)).2
  = loop_condition pi_settings (initial_state 0 1).
Proof.
  assert (H : body pi_settings (sensor_down first_pass) (initial_state 0 1)
              = (Raise (mkException "OSError" "Magnetometer Init Failed"),
                 initial_state 0 1))
    by reflexivity.
  split; [exact H|].
  exact (failed_iteration_skips_sleep_and_refresh _ _ _ _ _ H).
Defined.

(** ** The position in the geotag *)

(** C8, as the specification states it, fails: when the orbit library
    answers London to the loop and Quito to [capture], the row holds
    London and the photo is tagged with Quito. *)
Lemma geotag_is_row_position_refuted :
  ~ spec_geotag_is_row_position pi_settings
      (nominal london quito 600 5 10000000) (initial_state 0 1).
Proof.
  unfold spec_geotag_is_row_position. intros H.
  edestruct H as [E _]; [vm_compute; reflexivity | vm_compute; reflexivity |].
  vm_compute in E. discriminate E.
Qed.

Lemma geotags_lookup location (tags : gmap string string) :
  geotags location tags !! "GPS.GPSLatitude" =
    Some (convert (latitude location)).2 /\
  geotags location tags !! "GPS.GPSLatitudeRef" =
    Some (if (convert (latitude location)).1 then "S" else "N") /\
  geotags location tags !! "GPS.GPSLongitude" =
    Some (convert (longitude location)).2 /\
  geotags location tags !! "GPS.GPSLongitudeRef" =
    Some (if (convert (longitude location)).1 then "W" else "E").
Proof.
  unfold geotags. repeat split.
  - rewrite !lookup_insert_ne by done. apply lookup_insert_eq.
  - rewrite !lookup_insert_ne by done. apply lookup_insert_eq.
  - rewrite !lookup_insert_ne by done. apply lookup_insert_eq.
  - apply lookup_insert_eq.
Qed.

(** C8, amended.  A pass that takes a photo reads the position twice:
    once in the loop (line 123) and once inside [capture] (line 44).  The
    row holds the decimal degrees of the first read, unrounded; the four
    GPS tags of the photo are the encoding of the second read, unrounded.
    Row and geotag describe the same position when the two reads return
    the same one. *)
Theorem geotag_from_capture_read cfg c st u st' :
  remaining cfg st = true ->
  body cfg c st = (Ok u, st') ->
  exists sampled captured data tags,
    loop_coordinates c = Ok sampled /\
    capture_coordinates c = Ok captured /\
    data_file st' = data_file st ++ [Data data] /\
    row_latitude data = degrees (latitude sampled) /\
    row_longitude data = degrees (longitude sampled) /\
    photos st' !! image_path cfg (counter st) = Some tags /\
    tags !! "GPS.GPSLatitude" = Some (convert (latitude captured)).2 /\
    tags !! "GPS.GPSLatitudeRef" =
      Some (if (convert (latitude captured)).1 then "S" else "N") /\
    tags !! "GPS.GPSLongitude" = Some (convert (longitude captured)).2 /\
    tags !! "GPS.GPSLongitudeRef" =
      Some (if (convert (longitude captured)).1 then "W" else "E") /\
    (sampled = captured ->
     tags !! "GPS.GPSLatitude" =
       Some (convert (mkAngle (row_latitude data))).2 /\
     tags !! "GPS.GPSLongitude" =
       Some (convert (mkAngle (row_longitude data))).2).
Proof.
  intros Hrem H. body_cases H.
  - destruct (sample_ok _ _ _ Hsample) as (_ & _ & sampled & Hs & Hlat & Hlon).
    destruct (geotags_lookup location (exif_tags st)) as (T1 & T2 & T3 & T4).
    exists sampled, location, data, (geotags location (exif_tags st)).
    repeat (split; [first [assumption | reflexivity]|]).
    split; [cbn; apply lookup_insert_eq|].
    repeat (split; [assumption|]).
    intros ->. rewrite Hlat, Hlon, T1, T3.
    destruct location as [[lat] [lon]]. split; reflexivity.
  - change (remaining cfg (append_row data st)) with (remaining cfg st)
      in Hremaining. congruence.
Qed.

Lemma geotag_from_capture_read_witness :
  remaining pi_settings (initial_state 0 1) = true /\
  exists st',
    body pi_settings (nominal london quito 600 5 10000000) (initial_state 0 1)
      = (Ok tt, st') /\
    exists data tags,
      rows st' = [data] /\
      row_latitude data = degrees (latitude london) /\
      photos st' !! "/home/pi/photo_0001.jpg" = Some tags /\
      tags !! "GPS.GPSLatitude" = Some (convert (latitude quito)).2 /\
      tags !! "GPS.GPSLatitudeRef" = Some "S" /\
      tags !! "GPS.GPSLongitude" = Some "78/1,28/1,41/10" /\
      tags !! "GPS.GPSLongitudeRef" = Some "W".
Proof.
  assert (H1 : remaining pi_settings (initial_state 0 1) = true)
    by reflexivity.
  split; [exact H1|].
  destruct (body pi_settings (nominal london quito 600 5 10000000)
                 (initial_state 0 1)) as [[[]|e] st'] eqn:H2;
    [|vm_compute in H2; discriminate H2].
  exists st'. split; [reflexivity|].
  destruct (geotag_from_capture_read _ _ _ _ _ H1 H2)
    as (sampled & captured & data & tags & Hs & Hc & Hfile & Hlat & _ &
        Hphoto & T1 & T2 & T3 & T4 & _).
  injection Hs as <-. injection Hc as <-.
  exists data, tags. unfold rows. rewrite Hfile.
  repeat split; assumption || reflexivity.
Defined.

(** ** The storage ceiling *)

(** What a pass adds to the storage total: the size of the image when the
    body completes with storage left, nothing otherwise. *)
Lemma iteration_photos_size cfg c st :
  photos_size (iteration cfg c st).2 =
    match (body cfg c st).1, remaining cfg st, st_size c with
    | Ok _, true, Ok bytes => photos_size st + Z.of_N bytes
    | _, _, _ => photos_size st
    end.
Proof.
  rewrite iteration_run.
  destruct (body cfg c st) as [[[]|e] st'] eqn:H; cbn [fst snd].
  - body_cases H;
      change (remaining cfg (append_row data st)) with (remaining cfg st)
        in Hremaining; rewrite Hremaining; reflexivity.
  - destruct (body_raise _ _ _ _ _ H) as (_ & _ & _ & _ & Hsize & _).
    cbn. rewrite Hsize. destruct (remaining cfg st), (st_size c); reflexivity.
Qed.

Lemma exhausted_stays cfg world n :
  forall i st,
    remaining cfg st = false ->
    photos_size (passes cfg world n i st) = photos_size st /\
    remaining cfg (passes cfg world n i st) = false.
Proof.
  induction n as [|n IH]; intros i st H; cbn [passes]; [auto|].
  assert (E : photos_size (iteration cfg (world i) st).2 = photos_size st).
  { rewrite iteration_photos_size, H.
    destruct (body cfg (world i) st).1; reflexivity. }
  destruct (IH (S i) (iteration cfg (world i) st).2) as [E1 E2].
  { unfold remaining in *. now rewrite E. }
  split; [now rewrite E1 | exact E2].
Qed.

(** With images of at most [bound] bytes the total stays below the
    ceiling plus [bound]. *)
Lemma overshoot_bounded cfg world bound n :
  (forall j bytes, st_size (world j) = Ok bytes -> Z.of_N bytes <= bound) ->
  forall i st,
    photos_size st < max_photos_size cfg + bound ->
    photos_size (passes cfg world n i st) < max_photos_size cfg + bound.
Proof.
  intros Hbound. induction n as [|n IH]; intros i st H; cbn [passes]; [exact H|].
  apply IH. rewrite iteration_photos_size.
  destruct (body cfg (world i) st).1; [|exact H].
  destruct (remaining cfg st) eqn:Hrem; [|exact H].
  destruct (st_size (world i)) as [bytes|e] eqn:Hsize; [|exact H].
  apply Z.ltb_lt in Hrem. specialize (Hbound i bytes Hsize). lia.
Qed.

(** C5.  The storage test is true exactly when the total is below the
    ceiling.  A pass adds to the total only when the test was true on the
    total left by the passes before it, so the total after a capture is
    below the ceiling plus the size of that capture; with images of at
    most [bound] bytes it stays below the ceiling plus [bound].  Once the
    test is false it is false in every later pass and the total no longer
    moves.  With a ceiling of 1000 and images of 600 then 500 bytes: the
    test is true after the first image, the second image is taken, the
    total is 1100 and the test is false from then on. *)
Theorem storage_budget_soft_ceiling cfg :
  (forall st,
     remaining cfg st = true <-> photos_size st < max_photos_size cfg) /\
  (forall c st,
     photos_size (iteration cfg c st).2 = photos_size st \/
     exists bytes,
       st_size c = Ok bytes /\ photos_size st < max_photos_size cfg /\
       photos_size (iteration cfg c st).2 = photos_size st + Z.of_N bytes /\
       photos_size (iteration cfg c st).2
         < max_photos_size cfg + Z.of_N bytes) /\
  (forall world bound n i st,
     (forall j bytes, st_size (world j) = Ok bytes -> Z.of_N bytes <= bound) ->
     photos_size st < max_photos_size cfg + bound ->
     photos_size (passes cfg world n i st) < max_photos_size cfg + bound) /\
  (forall world n i st,
     remaining cfg st = false ->
     remaining cfg (passes cfg world n i st) = false /\
     photos_size (passes cfg world n i st) = photos_size st) /\
  photos_size (passes budget_1000 two_captures 1 0 (initial_state 0 1)) = 600 /\
  remaining budget_1000
    (passes budget_1000 two_captures 1 0 (initial_state 0 1)) = true /\
  (exists tags,
     photos (passes budget_1000 two_captures 2 0 (initial_state 0 1))
       !! "/home/pi/photo_0002.jpg" = Some tags) /\
  photos_size (passes budget_1000 two_captures 2 0 (initial_state 0 1))
    = 1100 /\
  (forall n,
     remaining budget_1000
       (passes budget_1000 two_captures (2 + n) 0 (initial_state 0 1))
     = false).
Proof.
  split; [|split; [|split; [|split]]].
  - intros st. unfold remaining. apply Z.ltb_lt.
  - intros c st. rewrite iteration_photos_size.
    destruct (body cfg c st).1; [|now left].
    destruct (remaining cfg st) eqn:Hrem; [|now left].
    destruct (st_size c) as [bytes|e]; [|now left].
    right. exists bytes. apply Z.ltb_lt in Hrem. repeat split; lia.
  - intros world bound n i st Hb H. now apply overshoot_bounded.
  - intros world n i st H.
    destruct (exhausted_stays cfg world n i st H). auto.
  - split; [vm_compute; reflexivity|].
    split; [vm_compute; reflexivity|].
    split; [eexists; vm_compute; reflexivity|].
    split; [vm_compute; reflexivity|].
    intros n.
    assert (E : forall k i st,
               passes budget_1000 two_captures (2 + k) i st =
               passes budget_1000 two_captures k (S (S i))
                 (passes budget_1000 two_captures 2 i st)).
    { intros k i st. reflexivity. }
    rewrite E. apply exhausted_stays. vm_compute. reflexivity.
Qed.

(** ** The time ceiling *)

Lemma passes_succ cfg world k i st :
  passes cfg world (S k) i st =
    passes cfg world k (S i) (iteration cfg (world i) st).2.
Proof. reflexivity. Qed.

(** When the body of every pass raises, the loop is still running after
    any number of passes, on the stored time it started with. *)
Lemma all_raise_running cfg world :
  (forall j s, exists e, (body cfg (world j) s).1 = Raise e) ->
  forall fuel i st,
    loop_condition cfg st = true ->
    exists s, main_loop cfg world fuel i st = Running s /\
              now_time s = now_time st /\ start_time s = start_time st.
Proof.
  intros Hall. induction fuel as [|fuel IH]; intros i st Hcond;
    cbn [main_loop]; rewrite Hcond; [eauto|].
  destruct (Hall i st) as [e He].
  destruct (body cfg (world i) st) as [r st'] eqn:Hbody. cbn in He. subst r.
  destruct (iteration_raise _ _ _ _ _ Hbody) as (_ & Hn & _ & Hs & _).
  pose proof (iteration_total cfg (world i) st) as T.
  destruct (iteration cfg (world i) st) as [[[]|e0] st0]; [|discriminate T].
  cbn [snd] in *.
  destruct (IH (S i) st0) as (s & Hs1 & Hs2 & Hs3).
  { rewrite (loop_condition_frame cfg st st0); assumption. }
  exists s. rewrite Hs1, Hs2, Hs3. auto.
Qed.

(** A loop that ends after it was entered has had a pass whose body
    completed and read a clock at or past the ceiling. *)
Lemma ended_needs_refresh cfg world fuel :
  forall i st st_end,
    loop_condition cfg st = true ->
    main_loop cfg world fuel i st = Ended st_end ->
    exists k u s',
      body cfg (world (i + k)%nat) (passes cfg world k i st) = (Ok u, s') /\
      now_time s' = loop_now (world (i + k)%nat) /\
      start_time st + timedelta_minutes (minutes_to_run cfg)
        <= loop_now (world (i + k)%nat).
Proof.
  induction fuel as [|fuel IH]; intros i st st_end Hcond Hend;
    cbn [main_loop] in Hend; rewrite Hcond in Hend; [discriminate|].
  pose proof (iteration_total cfg (world i) st) as T.
  destruct (body cfg (world i) st) as [[u|e] st'] eqn:Hbody.
  - pose proof (iteration_ok _ _ _ _ _ Hbody) as Hst.
    destruct (iteration cfg (world i) st) as [[[]|e0] st0] eqn:Hit;
      [|discriminate T].
    cbn [snd] in Hst. subst st0.
    destruct (body_ok _ _ _ _ _ Hbody) as (_ & Hnow & _ & Hstart & _).
    destruct (loop_condition cfg st') eqn:Hcond'.
    + destruct (IH _ _ _ Hcond' Hend) as (k & u' & s' & Hb & Hn & Hle).
      exists (S k), u', s'. rewrite passes_succ, Hit, Nat.add_succ_r.
      rewrite <- Hstart. auto.
    + exists O, u, st'. rewrite Nat.add_0_r. cbn [passes].
      repeat split; auto.
      unfold loop_condition in Hcond'. rewrite Hnow, Hstart in Hcond'. lia.
  - destruct (iteration_raise _ _ _ _ _ Hbody) as (_ & Hn & _ & Hs & _).
    destruct (iteration cfg (world i) st) as [[[]|e0] st0] eqn:Hit;
      [|discriminate T].
    cbn [snd] in *.
    destruct (IH (S i) st0 st_end) as (k & u' & s' & Hb & Hn' & Hle).
    { rewrite (loop_condition_frame cfg st st0); assumption. }
    { exact Hend. }
    exists (S k), u', s'. rewrite passes_succ, Hit, Nat.add_succ_r.
    rewrite <- Hs. auto.
Qed.

(** C10.  The loop test reads the stored time, and a pass whose body
    raises leaves the stored time as it was.  So from a state in which
    the test holds: if the body of every pass raises, then after any
    number of passes the loop is still running on the same stored time
    and never leaves by the time ceiling; and whenever the loop does
    leave, some pass of the run had a body that completed and stored a
    clock reading at or past the ceiling. *)
Theorem stale_now_time_never_ends cfg world i st :
  loop_condition cfg st = true ->
  (forall c s e s',
     body cfg c s = (Raise e, s') ->
     now_time (iteration cfg c s).2 = now_time s) /\
  ((forall j s, exists e, (body cfg (world j) s).1 = Raise e) ->
   forall fuel,
     exists s, main_loop cfg world fuel i st = Running s /\
               now_time s = now_time st) /\
  (forall fuel st_end,
     main_loop cfg world fuel i st = Ended st_end ->
     exists k u s',
       body cfg (world (i + k)%nat) (passes cfg world k i st) = (Ok u, s') /\
       now_time s' = loop_now (world (i + k)%nat) /\
       start_time st + timedelta_minutes (minutes_to_run cfg)
         <= loop_now (world (i + k)%nat)).
Proof.
  intros Hcond. split; [|split].
  - intros c s e s' H. now destruct (iteration_raise _ _ _ _ _ H) as (_ & ? & _).
  - intros Hall fuel.
    destruct (all_raise_running cfg world Hall fuel i st Hcond)
      as (s & H1 & H2 & _).
    eauto.
  - intros fuel st_end Hend. eapply ended_needs_refresh; eassumption.
Qed.

Lemma sensor_always_down_raises j s :
  exists e, (body pi_settings (sensor_always_down j) s).1 = Raise e.
Proof. eexists. reflexivity. Qed.

Lemma stale_now_time_never_ends_witness :
  loop_condition pi_settings (initial_state 0 1) = true /\
  (forall fuel,
     exists s,
       main_loop pi_settings sensor_always_down fuel 0 (initial_state 0 1)
         = Running s /\ now_time s = 1) /\
  (exists st_end k,
     main_loop pi_settings hourly 5 0 (initial_state 0 1) = Ended st_end /\
     counter st_end = 4 /\
     (body pi_settings (hourly k)
           (passes pi_settings hourly k 0 (initial_state 0 1))).1 = Ok tt /\
     0 + timedelta_minutes 175 <= loop_now (hourly k)).
Proof.
  assert (H : loop_condition pi_settings (initial_state 0 1) = true)
    by reflexivity.
  split; [exact H|]. split.
  - destruct (stale_now_time_never_ends pi_settings sensor_always_down 0
                (initial_state 0 1) H) as (_ & Hrun & _).
    exact (Hrun sensor_always_down_raises).
  - destruct (main_loop pi_settings hourly 5 0 (initial_state 0 1))
      as [st_end|e s|s] eqn:Hend;
      [|vm_compute in Hend; discriminate Hend
       |vm_compute in Hend; discriminate Hend].
    destruct (stale_now_time_never_ends pi_settings hourly 0
                (initial_state 0 1) H) as (_ & _ & Hneeds).
    destruct (Hneeds 5%nat st_end Hend) as (k & u & s' & Hb & _ & Hle).
    exists st_end, k. split; [reflexivity|]. split.
    + vm_compute in Hend. injection Hend as <-. reflexivity.
    + split; [|exact Hle].
      change (0 + k)%nat with k in Hb. rewrite Hb. now destruct u.
Defined.

(** * More properties of the program *)

(** ** One pass, case by case *)

Lemma iteration_outcome cfg c st : pass_outcome cfg c st (iteration cfg c st).2.
Proof.
  rewrite iteration_run.
  destruct (body cfg c st) as [[[]|e] st'] eqn:H; cbn [snd]; body_cases H;
    repeat match goal with
           | R : remaining _ (append_row _ _) = _ |- _ =>
               unfold remaining in R;
               cbn [append_row set_data_file photos_size] in R;
               fold (remaining cfg st) in R
           end;
    econstructor; eassumption.
Qed.

(** A property kept by every pass holds after any number of passes. *)
Lemma passes_invariant cfg world (P : State -> Prop) :
  (forall c st, P st -> P (iteration cfg c st).2) ->
  forall n i st, P st -> P (passes cfg world n i st).
Proof.
  intros Hstep. induction n as [|n IH]; intros i st H; cbn [passes]; auto.
Qed.

Lemma info_lines_snoc st lvl msg :
  info_lines (logged lvl msg st) =
    info_lines st ++ (if is_info (lvl, msg) then [(lvl, msg)] else []).
Proof.
  unfold info_lines, logged. cbn [events_log set_events_log].
  rewrite List.filter_app. reflexivity.
Qed.

Lemma error_lines_snoc st lvl msg :
  error_lines (logged lvl msg st) =
    error_lines st ++ (if is_error (lvl, msg) then [(lvl, msg)] else []).
Proof.
  unfold error_lines, logged. cbn [events_log set_events_log].
  rewrite List.filter_app. reflexivity.
Qed.

(** What a pass does to the counter, the clock, the sleep and the log:
    a pass that completes writes one INFO line, one that fails one ERROR
    line. *)
Lemma pass_bookkeeping cfg c st st' :
  pass_outcome cfg c st st' ->
  (exists msg,
     events_log st' = events_log st ++ [(INFO, msg)] /\
     counter st' = counter st + 1 /\
     slept st' = slept st + sampling_delta_secs cfg /\
     now_time st' = loop_now c) \/
  (exists msg,
     events_log st' = events_log st ++ [(ERROR, msg)] /\
     counter st' = counter st /\
     slept st' = slept st /\
     now_time st' = now_time st).
Proof.
  destruct 1; [right | right | right | right | right | left | left];
    eexists; repeat split; reflexivity.
Qed.

Lemma bookkeeping_pass cfg c k st :
  bookkeeping cfg k st -> bookkeeping cfg (S k) (iteration cfg c st).2.
Proof.
  intros (Hlen & Hcount & Hsum & Hslept).
  pose proof (iteration_outcome cfg c st) as O.
  destruct (pass_bookkeeping _ _ _ _ O)
    as [(msg & Hlog & Hc & Hs & _) | (msg & Hlog & Hc & Hs & _)];
    unfold bookkeeping, info_lines, error_lines in *;
    rewrite Hlog, !List.filter_app, !length_app, Hc, Hs; cbn; lia.
Qed.

Lemma bookkeeping_passes cfg world n :
  forall k i st,
    bookkeeping cfg k st ->
    bookkeeping cfg (k + n) (passes cfg world n i st).
Proof.
  induction n as [|n IH]; intros k i st H; cbn [passes].
  - now rewrite Nat.add_0_r.
  - rewrite Nat.add_succ_r. apply (IH (S k)). now apply bookkeeping_pass.
Qed.

(** X1.  After [n] passes of a run the log holds [n] lines, one for each
    pass: an INFO line for a pass that completed and an ERROR line for
    one that failed.  The counter is one more than the number of INFO
    lines, and the time slept is the interval times the number of
    completed passes: a failed pass does not sleep. *)
Theorem run_bookkeeping cfg world n start now :
  length (events_log (run cfg world n start now)) = n /\
  counter (run cfg world n start now) =
    1 + Z.of_nat (length (info_lines (run cfg world n start now))) /\
  (length (info_lines (run cfg world n start now)) +
   length (error_lines (run cfg world n start now)) = n)%nat /\
  slept (run cfg world n start now) =
    sampling_delta_secs cfg * (counter (run cfg world n start now) - 1).
Proof.
  apply (bookkeeping_passes cfg world n 0 0 (initial_state start now)).
  repeat split; cbn; lia.
Qed.

(** ** The CSV file *)

Lemma pass_file cfg c st st' :
  pass_outcome cfg c st st' ->
  data_file st' = data_file st \/
  exists data,
    sample c (counter st) = Ok data /\
    data_file st' = data_file st ++ [Data data].
Proof.
  destruct 1; [left | left | right | right | right | right | right];
    try reflexivity; eexists; split; try eassumption; reflexivity.
Qed.

Lemma rows_app_row st st' data :
  data_file st' = data_file st ++ [Data data] -> rows st' = rows st ++ [data].
Proof. unfold rows. intros ->. now rewrite omap_app. Qed.

Lemma rows_same st st' : data_file st' = data_file st -> rows st' = rows st.
Proof. unfold rows. now intros ->. Qed.

Lemma csv_shape_pass cfg c k st :
  csv_shape k st -> csv_shape (S k) (iteration cfg c st).2.
Proof.
  intros (Hfile & Hone & Hlow & Hup & Hall & Hsorted).
  pose proof (iteration_outcome cfg c st) as O.
  assert (Hc : counter st <= counter (iteration cfg c st).2
               <= counter st + 1).
  { destruct (pass_bookkeeping _ _ _ _ O)
      as [(msg & _ & Hc & _) | (msg & _ & Hc & _)]; lia. }
  assert (Hc' : counter (iteration cfg c st).2 = counter st \/
                exists data, data_file (iteration cfg c st).2
                               = data_file st ++ [Data data]).
  { destruct O; [left | left | right | right | right | right | right];
      try reflexivity; eexists; reflexivity. }
  unfold csv_shape.
  destruct (pass_file _ _ _ _ O) as [Hsame | (data & Hsample & Happ)].
  - destruct Hc' as [Hc'|(data & Happ)].
    + rewrite (rows_same _ _ Hsame), Hsame, Hc'. repeat split; auto; lia.
    + exfalso. rewrite Hsame in Happ.
      apply (f_equal (@length Line)) in Happ. rewrite length_app in Happ.
      cbn in Happ. lia.
  - destruct (sample_ok _ _ _ Hsample) as (Hn & _).
    rewrite (rows_app_row _ _ _ Happ), Happ, length_app. cbn [length].
    repeat split; try lia.
    + rewrite Hfile at 1. rewrite fmap_app. reflexivity.
    + apply Forall_app. split.
      * eapply Forall_impl; [exact Hall|]. cbn. intros r Hr. lia.
      * constructor; [lia|constructor].
    + rewrite fmap_app. apply StronglySorted_app_2.
      * intros x1 x2 H1 H2. cbn in H2. apply list_elem_of_singleton in H2.
        subst x2. apply list_elem_of_fmap in H1 as (r & -> & Hr).
        rewrite Forall_forall in Hall. specialize (Hall r Hr). lia.
      * exact Hsorted.
      * repeat constructor.
Qed.

Lemma csv_shape_passes cfg world n :
  forall k i st, csv_shape k st -> csv_shape (k + n) (passes cfg world n i st).
Proof.
  induction n as [|n IH]; intros k i st H; cbn [passes].
  - now rewrite Nat.add_0_r.
  - rewrite Nat.add_succ_r. apply (IH (S k)). now apply csv_shape_pass.
Qed.

Lemma csv_shape_run cfg world n start now :
  csv_shape n (run cfg world n start now).
Proof.
  apply (csv_shape_passes cfg world n 0 0 (initial_state start now)).
  unfold csv_shape. cbn. repeat split; try lia; constructor.
Qed.

(** X2.  After any number of passes [data.csv] is the header followed by
    data rows only; it holds at least one row for each completed pass and
    at most one row for each pass. *)
Theorem data_file_shape cfg world n start now :
  data_file (run cfg world n start now) =
    Header header :: (Data <$> rows (run cfg world n start now)) /\
  counter (run cfg world n start now) - 1
    <= Z.of_nat (length (rows (run cfg world n start now))) /\
  (length (rows (run cfg world n start now)) <= n)%nat.
Proof.
  destruct (csv_shape_run cfg world n start now) as (H1 & _ & H2 & H3 & _).
  auto.
Qed.

(** X3.  The counters of the rows never decrease down the file, and each
    lies between 1 and the current counter. *)
Theorem row_counters_sorted cfg world n start now :
  StronglySorted Z.le (row_counter <$> rows (run cfg world n start now)) /\
  Forall (fun r => 1 <= row_counter r <= counter (run cfg world n start now))
         (rows (run cfg world n start now)).
Proof.
  destruct (csv_shape_run cfg world n start now) as (_ & _ & _ & _ & H1 & H2).
  auto.
Qed.

(** ** Append only *)

Lemma pass_appends cfg c st :
  data_file st `prefix_of` data_file (iteration cfg c st).2 /\
  events_log st `prefix_of` events_log (iteration cfg c st).2.
Proof.
  pose proof (iteration_outcome cfg c st) as O. split.
  - destruct (pass_file _ _ _ _ O) as [-> | (data & _ & ->)];
      [reflexivity | now apply prefix_app_r].
  - destruct (pass_bookkeeping _ _ _ _ O)
      as [(msg & -> & _) | (msg & -> & _)]; now apply prefix_app_r.
Qed.

(** X4.  [data.csv] and the log only grow: what they hold after [n]
    passes is a prefix of what they hold after [n + m] passes. *)
Theorem files_are_append_only cfg world n m start now :
  data_file (run cfg world n start now)
    `prefix_of` data_file (run cfg world (n + m) start now) /\
  events_log (run cfg world n start now)
    `prefix_of` events_log (run cfg world (n + m) start now).
Proof.
  unfold run. generalize (initial_state start now) as st. generalize 0%nat as i.
  induction n as [|n IH]; intros i st; cbn [passes Nat.add].
  - revert i st. induction m as [|m IHm]; intros i st; cbn [passes];
      [split; reflexivity|].
    destruct (pass_appends cfg (world i) st) as [H1 H2].
    destruct (IHm (S i) (iteration cfg (world i) st).2) as [H3 H4].
    split; etrans; eassumption.
  - apply IH.
Qed.

(** ** What [capture] touches *)

Lemma geotags_other location (tags : gmap string string) key :
  key ∉ gps_keys -> geotags location tags !! key = tags !! key.
Proof.
  intros H. unfold gps_keys in H. unfold geotags.
  rewrite !lookup_insert_ne; [reflexivity|..]; intros <-; apply H;
    repeat first [apply list_elem_of_here | apply list_elem_of_further].
Qed.

(** X5.  Whether it succeeds or raises, [capture] leaves every EXIF tag
    other than the four GPS tags as it was, every stored image other than
    [image] as it was, and does not touch the storage total, the counter,
    the CSV file, the log or the stored time. *)
Theorem capture_touches_only_gps_tags_and_image c image st :
  (forall key,
     key ∉ gps_keys ->
     exif_tags (capture c image st).2 !! key = exif_tags st !! key) /\
  (forall path,
     path <> image ->
     photos (capture c image st).2 !! path = photos st !! path) /\
  photos_size (capture c image st).2 = photos_size st /\
  counter (capture c image st).2 = counter st /\
  data_file (capture c image st).2 = data_file st /\
  events_log (capture c image st).2 = events_log st /\
  now_time (capture c image st).2 = now_time st.
Proof.
  rewrite capture_run.
  destruct (capture_coordinates c) as [location|e];
    [destruct (camera_capture c) as [[]|e]|]; cbn;
    repeat split; auto; intros k Hk;
    first [now apply geotags_other | now rewrite lookup_insert_ne].
Qed.

(** ** Failures before the photo step *)

Lemma early_failure cfg c st e :
  sample c (counter st) = Raise e \/
  (exists data, sample c (counter st) = Ok data /\ csv_append c = Raise e) ->
  iteration cfg c st = (Ok tt, logged ERROR (error_text e) st).
Proof.
  intros [H | (data & H1 & H2)]; rewrite iteration_run, body_run.
  - rewrite H. reflexivity.
  - rewrite H1, add_csv_data_run, H2. reflexivity.
Qed.

(** X6.  A pass that fails in the sampling or in the append changes
    nothing but the log: no row, no photo, no tag, one ERROR line. *)
Theorem failure_before_photo_changes_only_log cfg c st e :
  sample c (counter st) = Raise e \/
  (exists data, sample c (counter st) = Ok data /\ csv_append c = Raise e) ->
  (iteration cfg c st).2 = logged ERROR (error_text e) st /\
  data_file (iteration cfg c st).2 = data_file st /\
  photos (iteration cfg c st).2 = photos st /\
  exif_tags (iteration cfg c st).2 = exif_tags st /\
  events_log (iteration cfg c st).2 = events_log st ++ [(ERROR, error_text e)].
Proof. intros H. rewrite (early_failure cfg c st e H). repeat split. Qed.

Lemma failure_before_photo_changes_only_log_witness :
  (sample (disk_full first_pass) (counter (initial_state 0 1))
     = Raise (mkException "OSError" "[Errno 28] No space left on device") \/
   exists data,
     sample (disk_full first_pass) (counter (initial_state 0 1)) = Ok data /\
     csv_append (disk_full first_pass)
       = Raise (mkException "OSError" "[Errno 28] No space left on device")) /\
  data_file (iteration pi_settings (disk_full first_pass)
                       (initial_state 0 1)).2 = [Header header] /\
  events_log (iteration pi_settings (disk_full first_pass)
                        (initial_state 0 1)).2
    = [(ERROR, "OSError: [Errno 28] No space left on device")].
Proof.
  assert (H : sample (disk_full first_pass) (counter (initial_state 0 1))
     = Raise (mkException "OSError" "[Errno 28] No space left on device") \/
   exists data,
     sample (disk_full first_pass) (counter (initial_state 0 1)) = Ok data /\
     csv_append (disk_full first_pass)
       = Raise (mkException "OSError" "[Errno 28] No space left on device")).
  { right. eexists. split; reflexivity. }
  split; [exact H|].
  destruct (failure_before_photo_changes_only_log pi_settings _ _ _ H)
    as (_ & Hfile & _ & _ & Hlog).
  split; [exact Hfile | exact Hlog].
Defined.

Lemma sample_missing_y c n mag vx :
  get_compass_raw c = Ok mag -> mag !! "x" = Some vx -> mag !! "y" = None ->
  sample c n = Raise (mkException "KeyError" "'y'").
Proof.
  intros H Hx Hy. unfold sample, round_item, getitem.
  rewrite H. cbv [mbind result_bind mret result_ret]. rewrite Hx, Hy.
  reflexivity.
Qed.

(** X7.  When the magnetometer dictionary has no [y] entry, the pass
    stops at [mag["y"]]: the log gets the line [KeyError: 'y'] and
    nothing else changes. *)
Theorem missing_key_is_logged cfg c st mag vx :
  get_compass_raw c = Ok mag -> mag !! "x" = Some vx -> mag !! "y" = None ->
  (iteration cfg c st).2 = logged ERROR "KeyError: 'y'" st.
Proof.
  intros H Hx Hy.
  rewrite (early_failure cfg c st (mkException "KeyError" "'y'")).
  - reflexivity.
  - left. eapply sample_missing_y; eassumption.
Qed.

Lemma missing_key_is_logged_witness :
  get_compass_raw (compass_without_y first_pass)
    = Ok (<["x" := 1%Q]> (<["z" := 3%Q]> ∅)) /\
  (<["x" := 1%Q]> (<["z" := 3%Q]> ∅) : gmap string Q) !! "x" = Some 1%Q /\
  (<["x" := 1%Q]> (<["z" := 3%Q]> ∅) : gmap string Q) !! "y" = None /\
  (iteration pi_settings (compass_without_y first_pass) (initial_state 0 1)).2
    = logged ERROR "KeyError: 'y'" (initial_state 0 1).
Proof.
  assert (H1 : get_compass_raw (compass_without_y first_pass)
                = Ok (<["x" := 1%Q]> (<["z" := 3%Q]> ∅))) by reflexivity.
  assert (H2 : (<["x" := 1%Q]> (<["z" := 3%Q]> ∅) : gmap string Q) !! "x"
               = Some 1%Q) by reflexivity.
  assert (H3 : (<["x" := 1%Q]> (<["z" := 3%Q]> ∅) : gmap string Q) !! "y"
               = None) by reflexivity.
  repeat (split; [assumption|]).
  exact (missing_key_is_logged pi_settings _ (initial_state 0 1) _ _ H1 H2 H3).
Defined.

(** ** Failures inside the photo step *)

Lemma photo_pass_run cfg c st data location :
  sample c (counter st) = Ok data ->
  csv_append c = Ok tt ->
  remaining cfg st = true ->
  capture_coordinates c = Ok location ->
  iteration cfg c st =
    match camera_capture c with
    | Raise e =>
        (Ok tt,
         logged ERROR (error_text e) (tagged location (append_row data st)))
    | Ok _ =>
        match st_size c with
        | Raise e =>
            (Ok tt,
             logged ERROR (error_text e)
               (stored (image_path cfg (counter st))
                  (tagged location (append_row data st))))
        | Ok bytes =>
            (Ok tt,
             finished cfg c
               (photo_logged (counter st)
                  (set_photos_size (photos_size st + Z.of_N bytes)
                     (stored (image_path cfg (counter st))
                        (tagged location (append_row data st))))))
        end
    end.
Proof.
  intros Hs Ha Hr Hc.
  rewrite iteration_run, body_run, Hs, add_csv_data_run, Ha, photo_step_run.
  change (remaining cfg (append_row data st)) with (remaining cfg st).
  rewrite Hr, capture_run, Hc.
  destruct (camera_capture c) as [[]|e]; [|reflexivity].
  destruct (st_size c); reflexivity.
Qed.

(** X8.  When the image is written but its size cannot be read, the
    image stays on disk with its geotags, its bytes are not added to the
    storage total, and the counter is not advanced, so the next pass
    writes to the same image path. *)
Theorem unreadable_size_leaves_photo_uncredited cfg c st data location e :
  sample c (counter st) = Ok data ->
  csv_append c = Ok tt ->
  remaining cfg st = true ->
  capture_coordinates c = Ok location ->
  camera_capture c = Ok tt ->
  st_size c = Raise e ->
  photos (iteration cfg c st).2 !! image_path cfg (counter st)
    = Some (geotags location (exif_tags st)) /\
  photos_size (iteration cfg c st).2 = photos_size st /\
  counter (iteration cfg c st).2 = counter st /\
  image_path cfg (counter (iteration cfg c st).2)
    = image_path cfg (counter st) /\
  data_file (iteration cfg c st).2 = data_file st ++ [Data data] /\
  events_log (iteration cfg c st).2 = events_log st ++ [(ERROR, error_text e)].
Proof.
  intros Hs Ha Hr Hc Hcam Hsize.
  rewrite (photo_pass_run cfg c st data location Hs Ha Hr Hc), Hcam, Hsize.
  cbn. repeat split. apply lookup_insert_eq.
Qed.

(** X9.  [capture] sets the four GPS tags before it triggers the camera:
    when the camera raises, the tags of the failed attempt stay set, no
    image is stored and nothing is added to the storage total. *)
Theorem camera_failure_leaves_tags_set cfg c st data location e :
  sample c (counter st) = Ok data ->
  csv_append c = Ok tt ->
  remaining cfg st = true ->
  capture_coordinates c = Ok location ->
  camera_capture c = Raise e ->
  exif_tags (iteration cfg c st).2 = geotags location (exif_tags st) /\
  photos (iteration cfg c st).2 = photos st /\
  photos_size (iteration cfg c st).2 = photos_size st /\
  counter (iteration cfg c st).2 = counter st.
Proof.
  intros Hs Ha Hr Hc Hcam.
  rewrite (photo_pass_run cfg c st data location Hs Ha Hr Hc), Hcam.
  repeat split.
Qed.

(** ** A pass after the ceiling is reached *)

(** X10.  Once the storage ceiling is reached a pass still samples and
    appends its row, logs the ceiling notice, advances the counter, sleeps
    and refreshes the time; it takes no photo and leaves the tags and the
    storage total alone. *)
Theorem exhausted_pass_still_samples cfg c st data :
  sample c (counter st) = Ok data ->
  csv_append c = Ok tt ->
  remaining cfg st = false ->
  data_file (iteration cfg c st).2 = data_file st ++ [Data data] /\
  events_log (iteration cfg c st).2 =
    events_log st ++ [(INFO, exhausted_text (counter st))] /\
  counter (iteration cfg c st).2 = counter st + 1 /\
  slept (iteration cfg c st).2 = slept st + sampling_delta_secs cfg /\
  now_time (iteration cfg c st).2 = loop_now c /\
  photos (iteration cfg c st).2 = photos st /\
  exif_tags (iteration cfg c st).2 = exif_tags st /\
  photos_size (iteration cfg c st).2 = photos_size st.
Proof.
  intros Hs Ha Hr.
  rewrite iteration_run, body_run, Hs, add_csv_data_run, Ha, photo_step_run.
  change (remaining cfg (append_row data st)) with (remaining cfg st).
  rewrite Hr. repeat split.
Qed.

(** X11.  A pass in which every call succeeds and storage remains
    appends its row, stores the image under the name of the counter with
    the geotags of the position [capture] read, adds the size of the image
    to the total, logs the counter and the new total, advances the
    counter, sleeps the interval and stores the clock reading. *)
Theorem photo_pass_effects cfg c st data location bytes :
  sample c (counter st) = Ok data ->
  csv_append c = Ok tt ->
  remaining cfg st = true ->
  capture_coordinates c = Ok location ->
  camera_capture c = Ok tt ->
  st_size c = Ok bytes ->
  data_file (iteration cfg c st).2 = data_file st ++ [Data data] /\
  photos (iteration cfg c st).2 =
    <[image_path cfg (counter st) := geotags location (exif_tags st)]>
      (photos st) /\
  photos_size (iteration cfg c st).2 = photos_size st + Z.of_N bytes /\
  events_log (iteration cfg c st).2 =
    events_log st ++
    [(INFO, "iteration " +:+ fmt_d (counter st) +:+ " photo size " +:+
            fmt_d (photos_size st + Z.of_N bytes))] /\
  counter (iteration cfg c st).2 = counter st + 1 /\
  slept (iteration cfg c st).2 = slept st + sampling_delta_secs cfg /\
  now_time (iteration cfg c st).2 = loop_now c.
Proof.
  intros Hs Ha Hr Hc Hcam Hsize.
  rewrite (photo_pass_run cfg c st data location Hs Ha Hr Hc), Hcam, Hsize.
  repeat split.
Qed.

(** ** The loop and its passes *)

Lemma main_loop_unroll cfg world k :
  forall fuel i st,
    (forall j, (j < k)%nat ->
               loop_condition cfg (passes cfg world j i st) = true) ->
    loop_condition cfg (passes cfg world k i st) = false ->
    (k <= fuel)%nat ->
    main_loop cfg world fuel i st =
      Ended (logged INFO (ended_text (passes cfg world k i st))
                    (passes cfg world k i st)).
Proof.
  induction k as [|k IH]; intros fuel i st Htrue Hfalse Hfuel.
  - cbn [passes] in *. destruct fuel; cbn [main_loop]; rewrite Hfalse;
      reflexivity.
  - destruct fuel as [|fuel]; [lia|]. cbn [main_loop].
    pose proof (Htrue 0%nat ltac:(lia)) as H0. cbn [passes] in H0. rewrite H0.
    pose proof (iteration_total cfg (world i) st) as T.
    destruct (iteration cfg (world i) st) as [[[]|e] st1] eqn:Hit;
      [|discriminate T].
    assert (E : forall j, passes cfg world (S j) i st
                          = passes cfg world j (S i) st1).
    { intros j. cbn [passes]. now rewrite Hit. }
    rewrite E in *. apply IH; [|exact Hfalse|lia].
    intros j Hj. rewrite <- E. apply Htrue. lia.
Qed.

Lemma main_loop_running cfg world fuel :
  forall i st,
    (forall j, (j <= fuel)%nat ->
               loop_condition cfg (passes cfg world j i st) = true) ->
    main_loop cfg world fuel i st = Running (passes cfg world fuel i st).
Proof.
  induction fuel as [|fuel IH]; intros i st Htrue; cbn [main_loop];
    pose proof (Htrue 0%nat ltac:(lia)) as H0; cbn [passes] in H0; rewrite H0.
  - reflexivity.
  -
    pose proof (iteration_total cfg (world i) st) as T.
    destruct (iteration cfg (world i) st) as [[[]|e] st1] eqn:Hit;
      [|discriminate T].
    assert (E : forall j, passes cfg world (S j) i st
                          = passes cfg world j (S i) st1).
    { intros j. cbn [passes]. now rewrite Hit. }
    rewrite E. apply IH. intros j Hj. rewrite <- E. apply Htrue. lia.
Qed.

(** X12.  If the loop test holds before each of the first [k] passes and
    fails after them, then with room for [k] passes the loop ends in the
    state after [k] passes with the final line added, and with room for
    fewer it is still running. *)
Theorem main_loop_ends_at_first_false_test cfg world k fuel i st :
  (forall j, (j < k)%nat ->
             loop_condition cfg (passes cfg world j i st) = true) ->
  loop_condition cfg (passes cfg world k i st) = false ->
  ((k <= fuel)%nat ->
   main_loop cfg world fuel i st =
     Ended (logged INFO (ended_text (passes cfg world k i st))
                   (passes cfg world k i st))) /\
  ((fuel < k)%nat ->
   main_loop cfg world fuel i st = Running (passes cfg world fuel i st)).
Proof.
  intros Htrue Hfalse. split; intros Hfuel.
  - now apply main_loop_unroll.
  - apply main_loop_running. intros j Hj. apply Htrue. lia.
Qed.

Lemma one_minute_tests j :
  (j < 6)%nat ->
  loop_condition one_minute (passes one_minute ten_seconds j 0 (initial_state 0 1))
  = true.
Proof.
  intros Hj. do 6 (destruct j as [|j]; [vm_compute; reflexivity|]). lia.
Qed.

Lemma main_loop_ends_at_first_false_test_witness :
  (forall j, (j < 6)%nat ->
     loop_condition one_minute
       (passes one_minute ten_seconds j 0 (initial_state 0 1)) = true) /\
  loop_condition one_minute
    (passes one_minute ten_seconds 6 0 (initial_state 0 1)) = false /\
  main_loop one_minute ten_seconds 10 0 (initial_state 0 1) =
    Ended (logged INFO "Ended on iteration 7."
             (passes one_minute ten_seconds 6 0 (initial_state 0 1))) /\
  main_loop one_minute ten_seconds 4 0 (initial_state 0 1) =
    Running (passes one_minute ten_seconds 4 0 (initial_state 0 1)).
Proof.
  assert (H2 : loop_condition one_minute
                 (passes one_minute ten_seconds 6 0 (initial_state 0 1))
               = false) by (vm_compute; reflexivity).
  split; [exact one_minute_tests|]. split; [exact H2|].
  destruct (main_loop_ends_at_first_false_test one_minute ten_seconds 6 10 0
              (initial_state 0 1) one_minute_tests H2) as [Hend _].
  destruct (main_loop_ends_at_first_false_test one_minute ten_seconds 6 4 0
              (initial_state 0 1) one_minute_tests H2) as [_ Hrun].
  split; [|apply Hrun; lia].
  rewrite Hend by lia. vm_compute. reflexivity.
Defined.

(** ** A run without failures *)

Lemma completing_passes cfg world :
  (forall j s, (body cfg (world j) s).1 = Ok tt) ->
  forall k i st,
    counter (passes cfg world k i st) = counter st + Z.of_nat k /\
    slept (passes cfg world k i st)
      = slept st + sampling_delta_secs cfg * Z.of_nat k /\
    start_time (passes cfg world k i st) = start_time st /\
    now_time (passes cfg world k i st) =
      match k with
      | O => now_time st
      | S k' => loop_now (world (i + k')%nat)
      end.
Proof.
  intros Hok. induction k as [|k IH]; intros i st; cbn [passes].
  - rewrite Nat2Z.inj_0. repeat split; lia.
  - specialize (Hok i st).
    destruct (body cfg (world i) st) as [[u|e] st1] eqn:Hbody;
      [|discriminate Hok].
    rewrite (iteration_ok _ _ _ _ _ Hbody).
    destruct (body_ok _ _ _ _ _ Hbody) as (Hc & Hn & Hs & Ht & _).
    destruct (IH (S i) st1) as (Hc' & Hs' & Ht' & Hn').
    rewrite Hc', Hs', Ht', Hn', Hc, Hs, Ht. repeat split; try lia.
    destruct k as [|k]; [now rewrite Nat.add_0_r|].
    now rewrite Nat.add_succ_r.
Qed.

(** X14.  In a run where every pass completes, the loop ends after the
    first pass whose clock reading reaches the ceiling: with [k] readings
    below it the run makes [k + 1] passes, the counter and the sleep have
    advanced [k + 1] times, and the last line of the log names the final
    counter. *)
Theorem healthy_run_length cfg world k fuel i st :
  (forall j s, (body cfg (world j) s).1 = Ok tt) ->
  loop_condition cfg st = true ->
  (forall j, (j < k)%nat ->
     loop_now (world (i + j)%nat)
       < start_time st + timedelta_minutes (minutes_to_run cfg)) ->
  start_time st + timedelta_minutes (minutes_to_run cfg)
    <= loop_now (world (i + k)%nat) ->
  (k < fuel)%nat ->
  exists st_end,
    main_loop cfg world fuel i st = Ended st_end /\
    counter st_end = counter st + Z.of_nat (S k) /\
    slept st_end = slept st + sampling_delta_secs cfg * Z.of_nat (S k) /\
    now_time st_end = loop_now (world (i + k)%nat) /\
    last (events_log st_end) =
      Some (INFO, "Ended on iteration " +:+
                  fmt_d (counter st + Z.of_nat (S k)) +:+ ".").
Proof.
  intros Hok Hcond Hbefore Hat Hfuel.
  pose proof (completing_passes cfg world Hok) as P.
  assert (Htrue : forall j, (j < S k)%nat ->
            loop_condition cfg (passes cfg world j i st) = true).
  { intros j Hj. unfold loop_condition.
    destruct (P j i st) as (_ & _ & Ht & Hn). rewrite Ht, Hn.
    destruct j as [|j]; [exact Hcond|].
    apply Z.ltb_lt. apply Hbefore. lia. }
  assert (Hfalse : loop_condition cfg (passes cfg world (S k) i st) = false).
  { unfold loop_condition.
    destruct (P (S k) i st) as (_ & _ & Ht & Hn). rewrite Ht, Hn.
    apply Z.ltb_ge. exact Hat. }
  eexists. split; [apply main_loop_unroll; [exact Htrue|exact Hfalse|lia]|].
  destruct (P (S k) i st) as (Hc & Hs & _ & Hn).
  cbn [logged counter slept now_time events_log set_events_log].
  rewrite last_snoc. unfold ended_text. rewrite Hc, Hs, Hn. repeat split.
Qed.

Lemma nominal_completes cfg p1 p2 bytes t1 t2 s :
  (body cfg (nominal p1 p2 bytes t1 t2) s).1 = Ok tt.
Proof.
  rewrite body_run.
  destruct (sample (nominal p1 p2 bytes t1 t2) (counter s)) as [data|e] eqn:Hs.
  - rewrite add_csv_data_run. cbn [csv_append nominal].
    rewrite photo_step_run.
    change (remaining cfg (append_row data s)) with (remaining cfg s).
    destruct (remaining cfg s); [|reflexivity].
    rewrite capture_run. reflexivity.
  - exfalso. revert Hs. unfold sample, round_item, getitem, nominal.
    cbn [get_compass_raw get_orientation get_accelerometer_raw sense_humidity
         sense_temperature loop_coordinates].
    cbv [mbind result_bind mret result_ret]. unfold xyz, pry.
    repeat (rewrite ?lookup_insert_eq; rewrite ?lookup_insert_ne by done).
    discriminate.
Qed.

Lemma healthy_run_length_witness :
  (forall j s, (body one_minute (ten_seconds j) s).1 = Ok tt) /\
  loop_condition one_minute (initial_state 0 1) = true /\
  (forall j, (j < 5)%nat ->
     loop_now (ten_seconds (0 + j)%nat)
       < start_time (initial_state 0 1) + timedelta_minutes 1) /\
  start_time (initial_state 0 1) + timedelta_minutes 1
    <= loop_now (ten_seconds (0 + 5)%nat) /\
  (5 < 8)%nat /\
  exists st_end,
    main_loop one_minute ten_seconds 8 0 (initial_state 0 1) = Ended st_end /\
    counter st_end = 7 /\
    slept st_end = 60 /\
    last (events_log st_end) = Some (INFO, "Ended on iteration 7.").
Proof.
  assert (H1 : forall j s, (body one_minute (ten_seconds j) s).1 = Ok tt).
  { intros j s. apply nominal_completes. }
  assert (H2 : loop_condition one_minute (initial_state 0 1) = true)
    by reflexivity.
  assert (H3 : forall j, (j < 5)%nat ->
     loop_now (ten_seconds (0 + j)%nat)
       < start_time (initial_state 0 1) + timedelta_minutes 1).
  { intros j Hj. change (start_time (initial_state 0 1)) with 0.
    unfold ten_seconds, nominal, timedelta_minutes. cbn [loop_now]. lia. }
  assert (H4 : start_time (initial_state 0 1) + timedelta_minutes 1
               <= loop_now (ten_seconds (0 + 5)%nat)).
  { vm_compute. discriminate. }
  assert (H5 : (5 < 8)%nat) by lia.
  repeat (split; [assumption|]).
  destruct (healthy_run_length one_minute ten_seconds 5 8 0 (initial_state 0 1)
              H1 H2 H3 H4 H5) as (st_end & He & Hc & Hs & _ & Hl).
  exists st_end. repeat split; assumption.
Defined.

(** ** Photo names *)

Section PhotoNames.

Import Decoder.

Lemma parse_nat_leading_zero (s : string) :
  parse_nat (String "0" s) = parse_nat s.
Proof.
  unfold parse_nat. cbn [NilEmpty.uint_of_string].
  destruct (NilEmpty.uint_of_string s) as [d|]; reflexivity.
Qed.

Lemma parse_nat_zeros (k : nat) (s : string) :
  parse_nat (string_of_list_ascii (repeat "0"%char k) +:+ s) = parse_nat s.
Proof.
  induction k as [|k IH]; [reflexivity|].
  cbn [repeat string_of_list_ascii].
  change (String "0" ?a +:+ s) with (String "0" (a +:+ s)).
  now rewrite parse_nat_leading_zero.
Qed.

Lemma zeros_no_char (sep : ascii) (k : nat) :
  is_digit sep = false ->
  no_char sep (string_of_list_ascii (repeat "0"%char k)).
Proof.
  intros H. induction k as [|k IH]; [exact I|]. split; [|exact IH].
  destruct (Ascii.eqb_spec "0" sep) as [E|E]; [|reflexivity].
  rewrite <- E in H. discriminate H.
Qed.

Lemma fmt_04d_nonneg (n : Z) :
  0 <= n ->
  fmt_04d n =
    string_of_list_ascii
      (repeat "0"%char (4 - String.length (digits (Z.to_N n))))
    +:+ digits (Z.to_N n).
Proof.
  intros H. unfold fmt_04d.
  assert ((n <? 0) = false) as -> by lia.
  rewrite Zabs2N.abs_N_nonneg by assumption. reflexivity.
Qed.

(** The padded counter reads back as the counter. *)
Lemma parse_nat_fmt_04d (n : Z) :
  0 <= n -> parse_nat (fmt_04d n) = Some (Z.to_N n).
Proof.
  intros H. rewrite fmt_04d_nonneg by assumption.
  now rewrite parse_nat_zeros, parse_nat_digits.
Qed.

Lemma fmt_04d_no_char (sep : ascii) (n : Z) :
  0 <= n -> is_digit sep = false -> no_char sep (fmt_04d n).
Proof.
  intros H Hsep. rewrite fmt_04d_nonneg by assumption.
  apply no_char_app; [now apply zeros_no_char | now apply digits_no_char].
Qed.

Lemma image_path_counter cfg (n m : Z) :
  0 <= n -> 0 <= m -> image_path cfg n = image_path cfg m -> n = m.
Proof.
  intros Hn Hm E. unfold image_path in E.
  apply (inj (String.append (base_folder cfg))) in E.
  apply (inj (String.append "/photo_")) in E.
  apply (f_equal (split_on ".")) in E.
  rewrite !split_on_app in E by (now apply fmt_04d_no_char).
  cbn in E. injection E as E. rewrite !append_empty_r in E.
  apply (f_equal parse_nat) in E.
  rewrite !parse_nat_fmt_04d in E by assumption.
  injection E as E. lia.
Qed.

End PhotoNames.

(** X15.  Different counters give different image paths, beyond 9999
    too: the padded counter in the name reads back as the counter. *)
Theorem distinct_counters_distinct_photos cfg (n m : Z) :
  0 <= n -> 0 <= m -> n <> m ->
  image_path cfg n <> image_path cfg m /\
  Decoder.parse_nat (fmt_04d n) = Some (Z.to_N n).
Proof.
  intros Hn Hm Hne. split.
  - intros E. apply Hne. eapply image_path_counter; eassumption.
  - now apply parse_nat_fmt_04d.
Qed.

Lemma distinct_counters_distinct_photos_witness :
  0 <= 9999 /\ 0 <= 10000 /\ 9999 <> 10000 /\
  image_path pi_settings 9999 <> image_path pi_settings 10000 /\
  image_path pi_settings 9999 = "/home/pi/photo_9999.jpg" /\
  image_path pi_settings 10000 = "/home/pi/photo_10000.jpg" /\
  image_path pi_settings 7 = "/home/pi/photo_0007.jpg".
Proof.
  assert (H1 : 0 <= 9999) by lia.
  assert (H2 : 0 <= 10000) by lia.
  assert (H3 : 9999 <> 10000) by lia.
  repeat (split; [assumption|]).
  split; [|repeat split; reflexivity].
  exact (proj1 (distinct_counters_distinct_photos pi_settings _ _ H1 H2 H3)).
Defined.

(** ** The photos of a run *)

Lemma pass_photos cfg c st st' :
  pass_outcome cfg c st st' ->
  photos st' = photos st \/
  exists location,
    capture_coordinates c = Ok location /\
    photos st' =
      <[image_path cfg (counter st) := geotags location (exif_tags st)]>
        (photos st).
Proof.
  destruct 1; [left | left | left | left | right | right | left];
    try reflexivity; eexists; split; try eassumption; reflexivity.
Qed.

Lemma pass_counter cfg c st st' :
  pass_outcome cfg c st st' -> counter st <= counter st' <= counter st + 1.
Proof.
  intros O. destruct (pass_bookkeeping _ _ _ _ O)
    as [(msg & _ & Hc & _) | (msg & _ & Hc & _)]; lia.
Qed.

Lemma photos_named_and_tagged_pass cfg c st :
  photos_named_and_tagged cfg st ->
  photos_named_and_tagged cfg (iteration cfg c st).2.
Proof.
  intros [Hone Hall].
  pose proof (iteration_outcome cfg c st) as O.
  pose proof (pass_counter _ _ _ _ O) as Hc.
  split; [lia|]. intros path tags Hlook.
  destruct (pass_photos _ _ _ _ O) as [E | (location & _ & E)];
    rewrite E in Hlook.
  - destruct (Hall _ _ Hlook) as (Ht & k & Hk & ->).
    split; [exact Ht|]. exists k. split; [lia|reflexivity].
  - destruct (decide (image_path cfg (counter st) = path)) as [<-|Hne].
    + rewrite lookup_insert_eq in Hlook. injection Hlook as <-.
      split; [exists location; apply geotags_lookup|].
      exists (counter st). split; [lia|reflexivity].
    + rewrite lookup_insert_ne in Hlook by assumption.
      destruct (Hall _ _ Hlook) as (Ht & k & Hk & ->).
      split; [exact Ht|]. exists k. split; [lia|reflexivity].
Qed.

(** X16.  Every image stored during a run carries the four GPS tags of
    one position, and its path is the image path of a counter between 1
    and the current counter. *)
Theorem stored_photos_are_named_and_geotagged cfg world n start now
        path tags :
  photos (run cfg world n start now) !! path = Some tags ->
  geotagged tags /\
  exists k, 1 <= k <= counter (run cfg world n start now) /\
            path = image_path cfg k.
Proof.
  revert path tags.
  apply (passes_invariant cfg world (photos_named_and_tagged cfg)
           (photos_named_and_tagged_pass cfg) n 0 (initial_state start now)).
  split; [cbn; lia|]. intros path tags H. cbn in H.
  rewrite lookup_empty in H. discriminate H.
Qed.

Lemma stored_photos_are_named_and_geotagged_witness :
  exists tags,
    photos (run pi_settings ten_seconds 3 0 1) !! "/home/pi/photo_0002.jpg"
      = Some tags /\
    geotagged tags /\
    exists k, 1 <= k <= counter (run pi_settings ten_seconds 3 0 1) /\
              "/home/pi/photo_0002.jpg" = image_path pi_settings k.
Proof.
  destruct (photos (run pi_settings ten_seconds 3 0 1)
              !! "/home/pi/photo_0002.jpg") as [tags|] eqn:H;
    [|vm_compute in H; discriminate H].
  exists tags. split; [reflexivity|].
  exact (stored_photos_are_named_and_geotagged pi_settings ten_seconds 3 0 1
           _ _ H).
Defined.

Lemma keeps_photo_pass cfg n tags c st :
  0 <= n ->
  keeps_photo cfg n tags st -> keeps_photo cfg n tags (iteration cfg c st).2.
Proof.
  intros Hn [Hlt Hlook].
  pose proof (iteration_outcome cfg c st) as O.
  pose proof (pass_counter _ _ _ _ O) as Hc.
  split; [lia|].
  destruct (pass_photos _ _ _ _ O) as [-> | (location & _ & ->)];
    [exact Hlook|].
  rewrite lookup_insert_ne; [exact Hlook|].
  intros E. apply image_path_counter in E; lia.
Qed.

(** X17.  The image of a pass that completed is never overwritten: it
    stays under its path, with its tags, after any number of later
    passes. *)
Theorem completed_photo_is_kept cfg world c st data location bytes m i :
  0 <= counter st ->
  sample c (counter st) = Ok data ->
  csv_append c = Ok tt ->
  remaining cfg st = true ->
  capture_coordinates c = Ok location ->
  camera_capture c = Ok tt ->
  st_size c = Ok bytes ->
  photos (passes cfg world m i (iteration cfg c st).2)
    !! image_path cfg (counter st)
  = Some (geotags location (exif_tags st)).
Proof.
  intros Hpos Hs Ha Hr Hc Hcam Hsize.
  apply (passes_invariant cfg world
           (keeps_photo cfg (counter st) (geotags location (exif_tags st)))).
  - intros c' st' H. now apply keeps_photo_pass.
  - rewrite (photo_pass_run cfg c st data location Hs Ha Hr Hc), Hcam, Hsize.
    split; [cbn; lia | cbn; apply lookup_insert_eq].
Qed.

Lemma unreadable_size_leaves_photo_uncredited_witness :
  exists data,
    sample (stat_down first_pass) (counter (initial_state 0 1)) = Ok data /\
    csv_append (stat_down first_pass) = Ok tt /\
    remaining pi_settings (initial_state 0 1) = true /\
    capture_coordinates (stat_down first_pass) = Ok london /\
    camera_capture (stat_down first_pass) = Ok tt /\
    st_size (stat_down first_pass)
      = Raise (mkException "FileNotFoundError" "[Errno 2] No such file") /\
    photos (iteration pi_settings (stat_down first_pass) (initial_state 0 1)).2
      !! "/home/pi/photo_0001.jpg" = Some (geotags london ∅) /\
    photos_size (iteration pi_settings (stat_down first_pass)
                           (initial_state 0 1)).2 = 0 /\
    counter (iteration pi_settings (stat_down first_pass)
                       (initial_state 0 1)).2 = 1.
Proof.
  destruct (sample (stat_down first_pass) (counter (initial_state 0 1)))
    as [data|e] eqn:Hs; [|vm_compute in Hs; discriminate Hs].
  exists data.
  assert (H2 : csv_append (stat_down first_pass) = Ok tt) by reflexivity.
  assert (H3 : remaining pi_settings (initial_state 0 1) = true)
    by reflexivity.
  assert (H4 : capture_coordinates (stat_down first_pass) = Ok london)
    by reflexivity.
  assert (H5 : camera_capture (stat_down first_pass) = Ok tt) by reflexivity.
  assert (H6 : st_size (stat_down first_pass)
     = Raise (mkException "FileNotFoundError" "[Errno 2] No such file"))
    by reflexivity.
  split; [reflexivity|]. repeat (split; [assumption|]).
  destruct (unreadable_size_leaves_photo_uncredited pi_settings _ _ _ _ _
              Hs H2 H3 H4 H5 H6) as (P1 & P2 & P3 & _).
  repeat split; assumption.
Defined.

Lemma camera_failure_leaves_tags_set_witness :
  exists data,
    sample (camera_down first_pass) (counter (initial_state 0 1)) = Ok data /\
    csv_append (camera_down first_pass) = Ok tt /\
    remaining pi_settings (initial_state 0 1) = true /\
    capture_coordinates (camera_down first_pass) = Ok london /\
    camera_capture (camera_down first_pass)
      = Raise (mkException "PiCameraRuntimeError" "No data received") /\
    exif_tags (iteration pi_settings (camera_down first_pass)
                         (initial_state 0 1)).2 = geotags london ∅ /\
    photos (iteration pi_settings (camera_down first_pass)
                      (initial_state 0 1)).2 = ∅.
Proof.
  destruct (sample (camera_down first_pass) (counter (initial_state 0 1)))
    as [data|e] eqn:Hs; [|vm_compute in Hs; discriminate Hs].
  exists data.
  assert (H2 : csv_append (camera_down first_pass) = Ok tt) by reflexivity.
  assert (H3 : remaining pi_settings (initial_state 0 1) = true)
    by reflexivity.
  assert (H4 : capture_coordinates (camera_down first_pass) = Ok london)
    by reflexivity.
  assert (H5 : camera_capture (camera_down first_pass)
     = Raise (mkException "PiCameraRuntimeError" "No data received"))
    by reflexivity.
  split; [reflexivity|]. repeat (split; [assumption|]).
  destruct (camera_failure_leaves_tags_set pi_settings _ _ _ _ _
              Hs H2 H3 H4 H5) as (P1 & P2 & _).
  split; assumption.
Defined.

Lemma exhausted_pass_still_samples_witness :
  exists data,
    sample (two_captures 2)
           (counter (passes budget_1000 two_captures 2 0 (initial_state 0 1)))
      = Ok data /\
    csv_append (two_captures 2) = Ok tt /\
    remaining budget_1000
      (passes budget_1000 two_captures 2 0 (initial_state 0 1)) = false /\
    row_counter data = 3 /\
    rows (iteration budget_1000 (two_captures 2)
            (passes budget_1000 two_captures 2 0 (initial_state 0 1))).2
      = rows (passes budget_1000 two_captures 2 0 (initial_state 0 1))
        ++ [data] /\
    last (events_log
            (iteration budget_1000 (two_captures 2)
               (passes budget_1000 two_captures 2 0 (initial_state 0 1))).2)
      = Some (INFO, "iteration 3 Max photos size reached.") /\
    counter (iteration budget_1000 (two_captures 2)
               (passes budget_1000 two_captures 2 0 (initial_state 0 1))).2
      = 4.
Proof.
  destruct (sample (two_captures 2)
              (counter (passes budget_1000 two_captures 2 0
                          (initial_state 0 1))))
    as [data|e] eqn:Hs; [|vm_compute in Hs; discriminate Hs].
  exists data.
  assert (H2 : csv_append (two_captures 2) = Ok tt) by reflexivity.
  assert (H3 : remaining budget_1000
      (passes budget_1000 two_captures 2 0 (initial_state 0 1)) = false)
    by (vm_compute; reflexivity).
  split; [reflexivity|]. repeat (split; [assumption|]).
  destruct (exhausted_pass_still_samples budget_1000 _ _ _ Hs H2 H3)
    as (P1 & P2 & P3 & _).
  split; [destruct (sample_ok _ _ _ Hs) as (-> & _); vm_compute; reflexivity|].
  split; [now apply rows_app_row|].
  split; [rewrite P2, last_snoc; vm_compute; reflexivity|].
  rewrite P3. vm_compute. reflexivity.
Defined.

Lemma photo_pass_effects_witness :
  exists data,
    sample first_pass (counter (initial_state 0 1)) = Ok data /\
    csv_append first_pass = Ok tt /\
    remaining pi_settings (initial_state 0 1) = true /\
    capture_coordinates first_pass = Ok london /\
    camera_capture first_pass = Ok tt /\
    st_size first_pass = Ok 600%N /\
    photos (iteration pi_settings first_pass (initial_state 0 1)).2
      = {["/home/pi/photo_0001.jpg" := geotags london ∅]} /\
    photos_size (iteration pi_settings first_pass (initial_state 0 1)).2
      = 600 /\
    events_log (iteration pi_settings first_pass (initial_state 0 1)).2
      = [(INFO, "iteration 1 photo size 600")].
Proof.
  destruct (sample first_pass (counter (initial_state 0 1)))
    as [data|e] eqn:Hs; [|vm_compute in Hs; discriminate Hs].
  exists data.
  assert (H2 : csv_append first_pass = Ok tt) by reflexivity.
  assert (H3 : remaining pi_settings (initial_state 0 1) = true)
    by reflexivity.
  assert (H4 : capture_coordinates first_pass = Ok london) by reflexivity.
  assert (H5 : camera_capture first_pass = Ok tt) by reflexivity.
  assert (H6 : st_size first_pass = Ok 600%N) by reflexivity.
  split; [reflexivity|]. repeat (split; [assumption|]).
  destruct (photo_pass_effects pi_settings _ _ _ _ _ Hs H2 H3 H4 H5 H6)
    as (_ & P2 & P3 & P4 & _).
  repeat split; assumption.
Defined.

Lemma completed_photo_is_kept_witness :
  exists data,
    0 <= counter (initial_state 0 1) /\
    sample first_pass (counter (initial_state 0 1)) = Ok data /\
    csv_append first_pass = Ok tt /\
    remaining pi_settings (initial_state 0 1) = true /\
    capture_coordinates first_pass = Ok london /\
    camera_capture first_pass = Ok tt /\
    st_size first_pass = Ok 600%N /\
    photos (passes pi_settings camera_down_once 4 0
              (iteration pi_settings first_pass (initial_state 0 1)).2)
      !! "/home/pi/photo_0001.jpg" = Some (geotags london ∅).
Proof.
  destruct (sample first_pass (counter (initial_state 0 1)))
    as [data|e] eqn:Hs; [|vm_compute in Hs; discriminate Hs].
  exists data.
  assert (H1 : 0 <= counter (initial_state 0 1)) by (vm_compute; discriminate).
  assert (H2 : csv_append first_pass = Ok tt) by reflexivity.
  assert (H3 : remaining pi_settings (initial_state 0 1) = true)
    by reflexivity.
  assert (H4 : capture_coordinates first_pass = Ok london) by reflexivity.
  assert (H5 : camera_capture first_pass = Ok tt) by reflexivity.
  assert (H6 : st_size first_pass = Ok 600%N) by reflexivity.
  split; [assumption|]. split; [reflexivity|].
  repeat (split; [assumption|]).
  exact (completed_photo_is_kept pi_settings camera_down_once _ _ _ _ _ 4 0
           H1 Hs H2 H3 H4 H5 H6).
Defined.

(** ** More on the encoder *)

Lemma Qabs_opp_eq (x : Q) : Qabs (- x) = Qabs x.
Proof. destruct x as [n d]. cbn. now rewrite Z.abs_opp. Qed.

(** X18.  The encoded string depends on the magnitude of the angle only:
    an angle and its opposite give the same string; the flag is [true]
    for exactly the negative angles. *)
Theorem convert_opposite_angle (theta : Q) :
  (convert (mkAngle (- theta))).2 = (convert (mkAngle theta)).2 /\
  ((convert (mkAngle theta)).1 = true <-> (theta < 0)%Q) /\
  ((convert (mkAngle (- theta))).1 = true <-> (0 < theta)%Q).
Proof.
  split; [|split].
  - rewrite !convert_components. cbn [snd].
    unfold dms_degrees, dms_minutes, dms_seconds, signed_dms.
    cbn [degrees]. rewrite Qabs_opp_eq. reflexivity.
  - rewrite convert_components, dms_sign_negative. cbn [fst degrees].
    apply Qltb_true.
  - rewrite convert_components, dms_sign_negative. cbn [fst degrees].
    rewrite Qltb_true. split; intros H; lra.
Qed.

Lemma round_half_even_unique (y : Q) (z : Z) :
  (inject_Z z - (1 # 2) < y < inject_Z z + (1 # 2))%Q ->
  round_half_even y = z.
Proof.
  intros [H1 H2]. pose proof (round_half_even_near y) as Hn.
  apply Qabs_Qle_condition in Hn. destruct Hn as [Hn1 Hn2].
  set (r := round_half_even y) in *.
  assert (r < z + 1).
  { rewrite Zlt_Qlt, inject_Z_plus. change (inject_Z 1) with 1%Q. lra. }
  assert (z < r + 1).
  { rewrite Zlt_Qlt, inject_Z_plus. change (inject_Z 1) with 1%Q. lra. }
  lia.
Qed.

Lemma Qfloor_unique (x : Q) (z : Z) :
  (inject_Z z <= x < inject_Z z + 1)%Q -> Qfloor x = z.
Proof.
  intros [H1 H2]. destruct (Qfloor_bounds x) as [F1 F2].
  set (f := Qfloor x) in *.
  assert (f < z + 1).
  { rewrite Zlt_Qlt, inject_Z_plus. change (inject_Z 1) with 1%Q. lra. }
  assert (z < f + 1).
  { rewrite Zlt_Qlt, inject_Z_plus. change (inject_Z 1) with 1%Q. lra. }
  lia.
Qed.

(** X19.  Every encoded string holds the whole degrees of the magnitude,
    minutes of at most 59 and tenths of seconds of at most 600.  The value
    600 is reached: seconds of 59.96 or more are written as 600/10 and
    are not carried into the minutes. *)
Theorem convert_fields_bounds (a : Angle) :
  exists D Mi S : N,
    (convert a).2 = render D Mi S /\
    Z.of_N D = Qfloor (Qabs (degrees a)) /\
    (Mi <= 59)%N /\ (S <= 600)%N /\
    ((5996 # 100 <= dms_seconds a)%Q -> S = 600%N).
Proof.
  destruct (convert_render a)
    as (D & Mi & HD & HMi & Ed & Em & Hs & Hsum & ->).
  destruct (fmul_seconds _ Hs) as [Hpos Herr].
  pose proof (round_half_even_near (fmul (dms_seconds a) 10)) as Hnear.
  pose proof (round_half_even_nonneg _ Hpos) as Hn.
  apply Qabs_Qle_condition in Herr, Hnear.
  set (t := fmul (dms_seconds a) 10) in *.
  set (n := round_half_even t) in *.
  assert (HMq : (0 <= inject_Z Mi <= 59)%Q).
  { split; [apply inject_Z_nonneg; lia|].
    change 59%Q with (inject_Z 59). rewrite <- Zle_Qle. lia. }
  assert (Hn600 : n <= 600).
  { assert (n < 601); [|lia]. rewrite Zlt_Qlt. change (inject_Z 601) with 601%Q.
    lra. }
  exists (Z.to_N D), (Z.to_N Mi), (Z.to_N n). cbn [snd].
  split; [reflexivity|]. split; [|split; [lia|split; [lia|]]].
  - rewrite Z2N.id by lia. symmetry. apply Qfloor_unique. lra.
  - intros Hlate.
    assert (n = 600); [|subst n; lia].
    apply round_half_even_unique. change (inject_Z 600) with 600%Q. lra.
Qed.

Lemma convert_fields_bounds_example :
  convert (mkAngle (5996 # 360000)) = (false, "0/1,0/1,600/10") /\
  convert (mkAngle (1 - (1 # 100000))) = (false, "0/1,59/1,600/10").
Proof. split; vm_compute; reflexivity. Qed.

(** X21.  The latitude reference written by [capture] is S for a
    negative latitude and N otherwise, the longitude reference is W for a
    negative longitude and E otherwise; a position on the equator or on
    the prime meridian is tagged N or E. *)
Theorem hemisphere_letters location (tags : gmap string string) :
  geotags location tags !! "GPS.GPSLatitudeRef" =
    Some (if Qltb (degrees (latitude location)) 0 then "S" else "N") /\
  geotags location tags !! "GPS.GPSLongitudeRef" =
    Some (if Qltb (degrees (longitude location)) 0 then "W" else "E") /\
  ((degrees (latitude location) == 0)%Q ->
   geotags location tags !! "GPS.GPSLatitudeRef" = Some "N") /\
  ((degrees (longitude location) == 0)%Q ->
   geotags location tags !! "GPS.GPSLongitudeRef" = Some "E").
Proof.
  destruct (geotags_lookup location tags) as (_ & T2 & _ & T4).
  rewrite T2, T4, !convert_components, !dms_sign_negative. cbn [fst].
  repeat split; intros E.
  - assert (Qltb (degrees (latitude location)) 0 = false) as ->; [|reflexivity].
    apply Qltb_false. lra.
  - assert (Qltb (degrees (longitude location)) 0 = false) as ->;
      [|reflexivity].
    apply Qltb_false. lra.
Qed.

(** ** Rounded columns *)

Lemma pow10_pos (n : nat) : (0 < inject_Z (10 ^ Z.of_nat n))%Q.
Proof.
  change 0%Q with (inject_Z 0). rewrite <- Zlt_Qlt.
  apply Z.pow_pos_nonneg; lia.
Qed.

(** X22.  [round(x, ndigits)] is within half a unit of the last kept
    decimal of [x], plus the rounding of the result to a float. *)
Theorem py_round_precision (x : Q) (ndigits : nat) (L : Z) :
  (Qabs x + (1 # 2) < 2 ^ L)%Q -> -1021 <= L ->
  (Qabs (py_round x ndigits - x)
     <= (1 # 2) / inject_Z (10 ^ Z.of_nat ndigits) + 2 ^ (L - 54))%Q.
Proof.
  intros Hx HL. unfold py_round.
  pose proof (pow10_pos ndigits) as Hs.
  set (scale := inject_Z (10 ^ Z.of_nat ndigits)) in *.
  pose proof (round_half_even_near (x * scale)) as Hn.
  set (k := round_half_even (x * scale)) in *.
  set (r := (inject_Z k / scale)%Q).
  assert (Hone : (1 <= scale)%Q).
  { unfold scale. change 1%Q with (inject_Z 1). rewrite <- Zle_Qle.
    pose proof (Z.pow_pos_nonneg 10 (Z.of_nat ndigits)). lia. }
  assert (Hr : (Qabs (r - x) <= (1 # 2) / scale)%Q).
  { assert (E : (r - x == (inject_Z k - x * scale) / scale)%Q).
    { unfold r. field. intros N. lra. }
    rewrite E. unfold Qdiv. rewrite Qabs_Qmult.
    rewrite (Qabs_pos (/ scale)).
    - apply Qmult_le_compat_r; [exact Hn|].
      apply Qlt_le_weak, Qinv_lt_0_compat, Hs.
    - apply Qlt_le_weak, Qinv_lt_0_compat, Hs. }
  assert (Hhalf : ((1 # 2) / scale <= 1 # 2)%Q).
  { apply Qle_shift_div_r; [exact Hs|]. lra. }
  assert (Hrabs : (Qabs r < 2 ^ L)%Q).
  { apply Qabs_Qle_condition in Hr.
    destruct (Qabs_Qle_condition r (Qabs x + (1 # 2))) as [_ Hb].
    eapply Qle_lt_trans; [apply Hb|exact Hx].
    pose proof (Qabs_Qle_condition x (Qabs x)) as [Hax _].
    specialize (Hax (Qle_refl _)). split; lra. }
  pose proof (fl_error r L Hrabs HL) as Hfl.
  apply Qabs_Qle_condition in Hr, Hfl. apply Qabs_Qle_condition.
  split; lra.
Qed.

Lemma py_round_precision_witness :
  (Qabs (251 # 10) + (1 # 2) < 2 ^ 5)%Q /\ -1021 <= 5 /\
  (Qabs (py_round (251 # 10) 2 - (251 # 10))
     <= (1 # 2) / inject_Z (10 ^ Z.of_nat 2) + 2 ^ (5 - 54))%Q.
Proof.
  assert (H1 : (Qabs (251 # 10) + (1 # 2) < 2 ^ 5)%Q) by reflexivity.
  assert (H2 : -1021 <= 5) by lia.
  split; [exact H1|]. split; [exact H2|].
  exact (py_round_precision _ _ _ H1 H2).
Defined.

Lemma round_item_ok d key ndigits r :
  round_item d key ndigits = Ok r -> rounded_entry d key ndigits r.
Proof.
  unfold round_item, getitem, rounded_entry.
  destruct (d !! key) as [v|]; [|discriminate].
  cbv [mbind result_bind mret result_ret]. intros [= <-]. eauto.
Qed.

(** X23.  In a row the temperature, the humidity and the magnetic
    components are the readings rounded to 2 decimals, the orientation
    and the acceleration components are the readings rounded to 3
    decimals, each under the key and in the column of its name, and the
    latitude and longitude are the degrees of the position, unrounded. *)
Theorem sample_columns c n data :
  sample c n = Ok data ->
  exists mag o acceleration humidity temperature location,
    get_compass_raw c = Ok mag /\
    get_orientation c = Ok o /\
    get_accelerometer_raw c = Ok acceleration /\
    sense_humidity c = Ok humidity /\
    sense_temperature c = Ok temperature /\
    loop_coordinates c = Ok location /\
    row_counter data = n /\
    row_datetime data = row_now c /\
    row_latitude data = degrees (latitude location) /\
    row_longitude data = degrees (longitude location) /\
    row_temperature data = py_round temperature 2 /\
    row_humidity data = py_round humidity 2 /\
    rounded_entry mag "x" 2 (row_mag_x data) /\
    rounded_entry mag "y" 2 (row_mag_y data) /\
    rounded_entry mag "z" 2 (row_mag_z data) /\
    rounded_entry o "pitch" 3 (row_pitch data) /\
    rounded_entry o "roll" 3 (row_roll data) /\
    rounded_entry o "yaw" 3 (row_yaw data) /\
    rounded_entry acceleration "x" 3 (row_x_acc data) /\
    rounded_entry acceleration "y" 3 (row_y_acc data) /\
    rounded_entry acceleration "z" 3 (row_z_acc data).
Proof.
  unfold sample.
  destruct (get_compass_raw c) as [mag|]; [|discriminate].
  cbn [mbind result_bind].
  destruct (round_item mag "x" 2) as [mx|] eqn:Hmx; [|discriminate].
  destruct (round_item mag "y" 2) as [my|] eqn:Hmy; [|discriminate].
  destruct (round_item mag "z" 2) as [mz|] eqn:Hmz; [|discriminate].
  cbn [mbind result_bind].
  destruct (get_orientation c) as [o|]; [|discriminate].
  cbn [mbind result_bind].
  destruct (round_item o "pitch" 3) as [op|] eqn:Hop; [|discriminate].
  destruct (round_item o "roll" 3) as [or|] eqn:Hor; [|discriminate].
  destruct (round_item o "yaw" 3) as [oy|] eqn:Hoy; [|discriminate].
  cbn [mbind result_bind].
  destruct (get_accelerometer_raw c) as [acc|]; [|discriminate].
  cbn [mbind result_bind].
  destruct (round_item acc "x" 3) as [ax|] eqn:Hax; [|discriminate].
  destruct (round_item acc "y" 3) as [ay|] eqn:Hay; [|discriminate].
  destruct (round_item acc "z" 3) as [az|] eqn:Haz; [|discriminate].
  cbn [mbind result_bind].
  destruct (sense_humidity c) as [h|]; [|discriminate].
  destruct (sense_temperature c) as [t|]; [|discriminate].
  destruct (loop_coordinates c) as [location|]; [|discriminate].
  cbv [mbind result_bind mret result_ret]. intros [= <-].
  exists mag, o, acc, h, t, location. cbn.
  repeat (split; [first [reflexivity | now apply round_item_ok]|]).
  now apply round_item_ok.
Qed.

Lemma sample_columns_witness :
  exists data,
    sample first_pass 1 = Ok data /\
    row_counter data = 1 /\
    row_temperature data = py_round (fl (251 # 10)) 2 /\
    (row_temperature data == fl (251 # 10))%Q /\
    (row_mag_x data == fl (33 # 100))%Q.
Proof.
  destruct (sample first_pass 1) as [data|e] eqn:Hs;
    [|vm_compute in Hs; discriminate Hs].
  exists data. split; [reflexivity|].
  destruct (sample_columns _ _ _ Hs)
    as (mag & o & acc & h & t & loc & E1 & _ & _ & _ & E5 & _ & Hc & _ & _ & _
        & Ht & _ & (vx & Hvx & Hx) & _).
  injection E5 as <-. injection E1 as <-.
  vm_compute in Hvx. injection Hvx as <-.
  split; [exact Hc|]. split; [exact Ht|].
  split; [rewrite Ht | rewrite Hx]; vm_compute; reflexivity.
Defined.

(** ** What the loop returns *)


